(** * rpncalc: the window, content and focus subsystem of [src/main.cpp]

    A shallow embedding of the classes [Item], [Content], [Window],
    [Windows] and [App] of namespace [calc], and the properties of the
    specification that concern them.

    Conventions of the embedding.
    - A C++ [int] is a [Z]; conversions between [int] and [size_t] are
      written out ([to_int], [to_size_t]; LP64: 32-bit [int], 64-bit
      [size_t]).
    - A call either returns, throws a C++ exception, or has undefined
      behaviour (unchecked [operator[]] on a vector, an iterator moved
      outside its range, the use of an uninitialised surface handle):
      type [outcome].
    - The terminal library (ncurses) is outside the repository.  Its
      queries and surface constructors are the fields of the class
      [Ncurses]; its drawing calls are recorded, in order, in a trace of
      [call]s: type [io].  What a call prints for its format follows the
      C standard: [printf_no_args].
    - [std::function] values are nullable: an empty one is [None], and
      calling it throws [bad_function_call].  What a stored function reads
      when it is called (terminal size, sibling windows) is the
      environment [Env] handed to the method that calls it. *)

From Stdlib Require Import ZArith Lia ZifyBool Ascii.
From stdpp Require Import base option list strings gmap.

Local Open Scope Z_scope.

(** ** Machine integers *)

Definition INT_MAX : Z := 2 ^ 31 - 1.
Definition INT_MIN : Z := - 2 ^ 31.

(** Conversion of an integer value to [int] (modular, two's complement). *)
Definition to_int (z : Z) : Z := (z + 2 ^ 31) mod 2 ^ 32 - 2 ^ 31.

(** Conversion of an integer value to [size_t]. *)
Definition to_size_t (z : Z) : Z := z mod 2 ^ 64.

Definition in_int (z : Z) : bool := (INT_MIN <=? z) && (z <=? INT_MAX).

(** [v.size()] of a string, as a mathematical integer. *)
Definition size (s : string) : Z := Z.of_nat (String.length s).

(** ** Outcomes of a call *)

Inductive exn : Type :=
| bad_function_call   (* calling an empty std::function *)
| out_of_range.       (* unordered_map::at on an absent key *)

Inductive outcome (A : Type) : Type :=
| Done (a : A)
| Thrown (e : exn)
| Undefined.

Arguments Done {A} a.
Arguments Thrown {A} e.
Arguments Undefined {A}.

#[global] Instance outcome_ret : MRet outcome := λ A a, Done a.
#[global] Instance outcome_bind : MBind outcome := λ A B f m,
  match m with
  | Done a => f a
  | Thrown e => Thrown e
  | Undefined => Undefined
  end.

(** [v[i]] on a vector, with an [int] index converted to [size_type]:
    no bounds check. *)
Definition vec_at {A} (v : list A) (i : Z) : outcome A :=
  if (0 <=? i) && (i <? Z.of_nat (length v))
  then match v !! Z.to_nat i with
       | Some a => Done a
       | None => Undefined
       end
  else Undefined.

(** Calling a [std::function]. *)
Definition invoke {E A} (f : option (E → A)) (env : E) : outcome A :=
  match f with
  | Some g => Done (g env)
  | None => Thrown bad_function_call
  end.

(** ** The terminal library *)

Inductive attr : Type :=
| COLOR_PAIR (n : Z)
| A_REVERSE.

(** What the program needs of ncurses surfaces.  [WINDOW] is the state of
    one surface; [Env] is the state of the terminal. *)
Class Ncurses (Env WINDOW : Type) : Type := {
  newwin : Env → Z → Z → Z → Z → WINDOW;
  mvwin : WINDOW → Z → Z → WINDOW;
  wresize : WINDOW → Z → Z → WINDOW;
  getmaxx : WINDOW → Z;
  getmaxy : WINDOW → Z
}.

(** Drawing calls, as issued.  [c_wnoutrefresh None] is
    [wnoutrefresh(stdscr)]. *)
Inductive call (WINDOW : Type) : Type :=
| c_box (s : WINDOW)
| c_mvwprintw (s : WINDOW) (row col : Z) (fmt : string)
| c_wattron (s : WINDOW) (a : attr)
| c_wattroff (s : WINDOW) (a : attr)
| c_wbkgd (s : WINDOW) (a : attr)
| c_wclear (s : WINDOW)
| c_wnoutrefresh (s : option WINDOW)
| c_doupdate.

Arguments c_box {WINDOW} s.
Arguments c_mvwprintw {WINDOW} s row col fmt.
Arguments c_wattron {WINDOW} s a.
Arguments c_wattroff {WINDOW} s a.
Arguments c_wbkgd {WINDOW} s a.
Arguments c_wclear {WINDOW} s.
Arguments c_wnoutrefresh {WINDOW} s.
Arguments c_doupdate {WINDOW}.

(** What the [printf] family prints for a format when no further argument
    is passed, which is how the program calls [mvwprintw]: an ordinary
    character is copied, [%%] prints one [%], and any other [%] starts a
    conversion whose argument is missing, which is undefined
    (C11, 7.21.6.1). *)
Fixpoint printf_no_args (fmt : string) : outcome string :=
  match fmt with
  | EmptyString => Done EmptyString
  | String a rest =>
      if Ascii.eqb a "%"%char then
        match rest with
        | EmptyString => Undefined
        | String b rest' =>
            if Ascii.eqb b "%"%char
            then out ← printf_no_args rest'; Done (String "%"%char out)
            else Undefined
        end
      else out ← printf_no_args rest; Done (String a out)
  end.

(** A computation that draws: its result and the calls it issued. *)
Definition io (WINDOW A : Type) : Type := outcome (A * list (call WINDOW)).

Definition io_ret {W A} (a : A) : io W A := Done (a, []).

Definition io_bind {W A B} (m : io W A) (f : A → io W B) : io W B :=
  match m with
  | Done (a, t1) =>
      match f a with
      | Done (b, t2) => Done (b, t1 ++ t2)
      | Thrown e => Thrown e
      | Undefined => Undefined
      end
  | Thrown e => Thrown e
  | Undefined => Undefined
  end.

Definition emit {W} (c : call W) : io W unit := Done (tt, [c]).

Definition lift {W A} (m : outcome A) : io W A :=
  match m with
  | Done a => Done (a, [])
  | Thrown e => Thrown e
  | Undefined => Undefined
  end.

Declare Scope io_scope.
Delimit Scope io_scope with io.
Notation "'let*' x := m 'in' k" := (io_bind m (λ x, k))
  (at level 10, x name, m at level 100, k at level 200,
   only parsing) : io_scope.

(** A loop over a sequence whose body updates a state. *)
Fixpoint for_each {W S X} (body : X → S → io W S) (xs : list X) (s : S)
  : io W S :=
  match xs with
  | [] => io_ret s
  | x :: xs' => io_bind (body x s) (for_each body xs')
  end.

(** The result of a drawing computation, without its trace. *)
Definition result {W A} (m : io W A) : outcome A :=
  match m with
  | Done (a, _) => Done a
  | Thrown e => Thrown e
  | Undefined => Undefined
  end.

(** ** class Item (lines 49-91) *)

Module Item.
Section Item.
Context {Env : Type}.

Record t : Type := mk {
  _value : string;
  _dynValue : option (Env → string);
  _dynamic : bool;
  _enabled : bool
}.

(** [Item() = default] *)
Definition default : t :=
  {| _value := ""; _dynValue := None; _dynamic := false; _enabled := false |}.

(** [std::string value() const] *)
Definition value (env : Env) (i : t) : outcome string :=
  if _dynamic i then invoke (_dynValue i) env else Done (_value i).

Definition enable (i : t) : t :=
  {| _value := _value i; _dynValue := _dynValue i;
     _dynamic := _dynamic i; _enabled := true |}.

Definition disable (i : t) : t :=
  {| _value := _value i; _dynValue := _dynValue i;
     _dynamic := _dynamic i; _enabled := false |}.

Definition enabled (i : t) : bool := _enabled i.

(** [void value(std::string v)] *)
Definition value_str (v : string) (i : t) : t :=
  enable {| _value := v; _dynValue := _dynValue i;
            _dynamic := false; _enabled := _enabled i |}.

(** [void value(std::function<std::string()> func)] *)
Definition value_fn (func : option (Env → string)) (i : t) : t :=
  enable {| _value := _value i; _dynValue := func;
            _dynamic := true; _enabled := _enabled i |}.

(** [Item(std::string v)] and [Item(std::function<std::string()> func)] *)
Definition of_str (v : string) : t := value_str v default.
Definition of_fn (func : option (Env → string)) : t := value_fn func default.

(** [void print(WINDOW* win, int row, int col, int width, int height)]:
    [length] is an [int], so the subtraction and the division are the
    signed ones (overflow undefined, quotient truncated). *)
Definition print {W} (env : Env) (win : W) (row col width : Z) (i : t)
  : io W unit :=
  if negb (_enabled i) then io_ret tt
  else
    (let* v := lift (value env i) in
     let length := to_int (size v) in
     if in_int (width - length) then
       let x := Z.quot (width - length) 2 in
       let* v' := lift (value env i) in
       emit (c_mvwprintw win row x v')
     else Undefined)%io.
End Item.
Arguments t : clear implicits.
End Item.

(** ** class Content (lines 93-131) *)

Module Content.
Section Content.
Context {Env : Type}.

Record t : Type := mk {
  _rows : Z;
  _cols : Z;
  _rptr : Z;
  _cptr : Z;
  _content : list (list (Item.t Env))
}.

(** [Content() = default] *)
Definition default : t :=
  {| _rows := -1; _cols := 1; _rptr := 0; _cptr := 0; _content := [] |}.

Definition with_content (c : t) (rows : list (list (Item.t Env))) : t :=
  {| _rows := _rows c; _cols := _cols c; _rptr := _rptr c;
     _cptr := _cptr c; _content := rows |}.

(** [operator[](int row)] *)
Definition row (c : t) (r : Z) : outcome (list (Item.t Env)) :=
  vec_at (_content c) r.

(** [std::vector<int> size() const] *)
Definition size (c : t) : list Z := [_rows c; _cols c].

(** [void allocateNew()] *)
Definition allocateNew (c : t) : outcome t :=
  let c1 := if bool_decide (_content c = [])
            then with_content c (_content c ++ [[]]) else c in
  r ← vec_at (_content c1) (_rptr c1);
  match r with
  | [] => Done (with_content c1
                  (<[Z.to_nat (_rptr c1) := r ++ [Item.default]]> (_content c1)))
  | _ => Done c1
  end.

(** [void add(std::string value)] and [void add(std::function...)]:
    the argument is not stored. *)
Definition add_str (value : string) (c : t) : outcome t := allocateNew c.
Definition add_fn (func : option (Env → string)) (c : t) : outcome t :=
  allocateNew c.

(** [_content[row][col].value(...)], for either overload of
    [Item::value]: [set] is the assignment to the cell. *)
Definition replace_with (set : Item.t Env → Item.t Env) (r col : Z) (c : t)
  : outcome t :=
  cells ← vec_at (_content c) r;
  cell ← vec_at cells col;
  Done (with_content c
          (<[Z.to_nat r := <[Z.to_nat col := set cell]> cells]> (_content c))).

(** [void replace(int row, int col, std::string value)] *)
Definition replace_str (r col : Z) (value : string) (c : t) : outcome t :=
  replace_with (Item.value_str value) r col c.

(** [void replace(int row, int col, std::function<std::string()> func)] *)
Definition replace_fn (r col : Z) (func : option (Env → string)) (c : t)
  : outcome t :=
  replace_with (Item.value_fn func) r col c.

(** [void print(WINDOW* win, std::vector<int> coords)]: reads the four
    coordinates and draws nothing. *)
Definition print {W} (win : W) (coords : list Z) (c : t) : io W unit :=
  (let* h := lift (vec_at coords 0) in
   let* w := lift (vec_at coords 1) in
   let* y := lift (vec_at coords 2) in
   let* x := lift (vec_at coords 3) in
   io_ret tt)%io.

(** The cell at [(r, col)], when there is one. *)
Definition cell (c : t) (r col : Z) : option (Item.t Env) :=
  if (0 <=? r) && (0 <=? col)
  then cells ← _content c !! Z.to_nat r; cells !! Z.to_nat col
  else None.

(** [(r, col)] is a valid existing index. *)
Definition valid_index (c : t) (r col : Z) : Prop :=
  is_Some (cell c r col).
End Content.
Arguments t : clear implicits.
End Content.

(** ** enum class WinOpt (lines 17-21) *)

Inductive WinOpt : Type :=
| BOXED | NOBOXED
| TITLED | NOTITLED
| LALIGNED | CALIGNED | RALIGNED.

(** ** class Window (lines 133-250) *)

Module Window.
Section Window.
Context {Env WINDOW : Type} `{!Ncurses Env WINDOW}.

(** [_win] is a pointer that [Window() {}] leaves uninitialised: [None].
    After [newwin] it is [Some] of the surface it points to. *)
Record t : Type := mk {
  _getDims : option (Env → list Z);
  _content : Content.t Env;
  _win : option WINDOW;
  _name : string;
  _title_align : string;
  _boxed : bool;
  _selected : bool;
  _titled : bool
}.

(** [Window() {}] *)
Definition default : t :=
  {| _getDims := None; _content := Content.default; _win := None;
     _name := ""; _title_align := "left";
     _boxed := true; _selected := false; _titled := true |}.

Definition set_content (c : Content.t Env) (w : t) : t :=
  {| _getDims := _getDims w; _content := c; _win := _win w;
     _name := _name w; _title_align := _title_align w;
     _boxed := _boxed w; _selected := _selected w; _titled := _titled w |}.

Definition set_win (s : option WINDOW) (w : t) : t :=
  {| _getDims := _getDims w; _content := _content w; _win := s;
     _name := _name w; _title_align := _title_align w;
     _boxed := _boxed w; _selected := _selected w; _titled := _titled w |}.

Definition set_title_align (a : string) (w : t) : t :=
  {| _getDims := _getDims w; _content := _content w; _win := _win w;
     _name := _name w; _title_align := a;
     _boxed := _boxed w; _selected := _selected w; _titled := _titled w |}.

Definition set_boxed (b : bool) (w : t) : t :=
  {| _getDims := _getDims w; _content := _content w; _win := _win w;
     _name := _name w; _title_align := _title_align w;
     _boxed := b; _selected := _selected w; _titled := _titled w |}.

Definition set_selected (b : bool) (w : t) : t :=
  {| _getDims := _getDims w; _content := _content w; _win := _win w;
     _name := _name w; _title_align := _title_align w;
     _boxed := _boxed w; _selected := b; _titled := _titled w |}.

Definition set_titled (b : bool) (w : t) : t :=
  {| _getDims := _getDims w; _content := _content w; _win := _win w;
     _name := _name w; _title_align := _title_align w;
     _boxed := _boxed w; _selected := _selected w; _titled := b |}.

(** Reading [_win] to hand it to the terminal library. *)
Definition win (w : t) : io WINDOW WINDOW :=
  match _win w with
  | Some s => io_ret s
  | None => Undefined
  end.

(** [std::vector<int> getDims()] *)
Definition getDims (env : Env) (w : t) : io WINDOW (list Z) :=
  lift (invoke (_getDims w) env).

(** [void refresh()] *)
Definition refresh (w : t) : io WINDOW unit :=
  (let* s := win w in emit (c_wnoutrefresh (Some s)))%io.

(** [void drawBox()] *)
Definition drawBox (w : t) : io WINDOW unit :=
  if negb (_boxed w) then io_ret tt
  else (let* s := win w in emit (c_box s))%io.

(** The title text of [putTitle]. *)
Definition title (w : t) : string := " " +:+ _name w +:+ " ".

(** [void putTitle()].  [title.size()] is a [size_t], so both
    differences are computed in [size_t] and converted back to [int]
    by the assignment to [startx]. *)
Definition putTitle (w : t) : io WINDOW unit :=
  let startx := 0 in
  let title := title w in
  if negb (_titled w) then io_ret tt
  else
    (let startx := if decide (_title_align w = "left") then 2 else startx in
     let* startx :=
       if decide (_title_align w = "center")
       then let* s := win w in
            io_ret (to_int (to_size_t (to_size_t (getmaxx s) - size title) / 2))
       else io_ret startx in
     let* startx :=
       if decide (_title_align w = "right")
       then let* s := win w in
            io_ret (to_int (to_size_t
                      (to_size_t (to_size_t (getmaxx s) - size title) - 2)))
       else io_ret startx in
     let* _ := if _selected w
               then let* s := win w in emit (c_wattron s A_REVERSE)
               else io_ret tt in
     let* s := win w in
     let* _ := emit (c_mvwprintw s 0 startx title) in
     if _selected w
     then let* s := win w in emit (c_wattroff s A_REVERSE)
     else io_ret tt)%io.

(** [std::vector<int> getCoords()] *)
Definition getCoords (w : t) : io WINDOW (list Z) :=
  (let* s := win w in
   let coords := [getmaxy s; getmaxx s; 0; 0] in
   io_ret (if _boxed w
           then match coords with
                | [c0; c1; c2; c3] => [c0 - 2; c1 - 2; c2 + 1; c3 + 1]
                | _ => coords
                end
           else coords))%io.

(** [void draw()] *)
Definition draw (w : t) : io WINDOW unit :=
  (let* _ := drawBox w in
   let* _ := putTitle w in
   let* s := win w in
   let* coords := getCoords w in
   let* _ := Content.print s coords (_content w) in
   refresh w)%io.

(** [Window(std::string name, std::function<std::vector<int>()> func)] *)
Definition make (env : Env) (name : string) (func : option (Env → list Z))
  : io WINDOW t :=
  let w := {| _getDims := func; _content := Content.default; _win := None;
              _name := name; _title_align := "left";
              _boxed := true; _selected := false; _titled := true |} in
  (let* d := getDims env w in
   let* d0 := lift (vec_at d 0) in
   let* d1 := lift (vec_at d 1) in
   let* d2 := lift (vec_at d 2) in
   let* d3 := lift (vec_at d 3) in
   let s := newwin env d0 d1 d2 d3 in
   let w := set_win (Some s) w in
   let* _ := emit (c_wattron s (COLOR_PAIR 1)) in
   let* _ := emit (c_wbkgd s (COLOR_PAIR 1)) in
   let* _ := draw w in
   io_ret w)%io.

(** [void resize()] *)
Definition resize (env : Env) (w : t) : io WINDOW t :=
  (let* d := getDims env w in
   let* s := win w in
   let* _ := emit (c_wclear s) in
   let* d2 := lift (vec_at d 2) in
   let* d3 := lift (vec_at d 3) in
   let s := mvwin s d2 d3 in
   let* d0 := lift (vec_at d 0) in
   let* d1 := lift (vec_at d 1) in
   let s := wresize s d0 d1 in
   let w := set_win (Some s) w in
   let* _ := draw w in
   io_ret w)%io.

(** [void setOption(WinOpt opt)] *)
Definition setOption (env : Env) (opt : WinOpt) (w : t) : io WINDOW t :=
  let w := match opt with
           | BOXED => set_boxed true w
           | NOBOXED => set_boxed false w
           | TITLED => set_titled true w
           | NOTITLED => set_titled false w
           | LALIGNED => set_title_align "left" w
           | CALIGNED => set_title_align "center" w
           | RALIGNED => set_title_align "right" w
           end in
  resize env w.

(** [std::vector<int> getCellWidth(int n)] *)
Definition getCellWidth (n : Z) (w : t) : io WINDOW (list Z) :=
  (let* s := win w in
   let width := getmaxx s in
   let width := if _boxed w then width - 2 else width in
   if decide (n = 0 ∨ (width = INT_MIN ∧ n = -1)) then Undefined
   else io_ret [Z.quot width n; Z.rem width n])%io.

(** [void markSelected()] *)
Definition markSelected (w : t) : io WINDOW t :=
  let w := set_selected true w in
  (let* _ := draw w in
   let* s := win w in
   let* _ := emit (c_wnoutrefresh (Some s)) in
   let* _ := emit c_doupdate in
   io_ret w)%io.

(** [void unmarkSelected()] *)
Definition unmarkSelected (w : t) : io WINDOW t :=
  let w := set_selected false w in
  (let* _ := draw w in io_ret w)%io.

(** [std::vector<int> contentSize()] *)
Definition contentSize (w : t) : list Z := Content.size (_content w).

(** [void contentAdd(std::string value)] *)
Definition contentAdd_str (env : Env) (value : string) (w : t) : io WINDOW t :=
  (let* c := lift (Content.add_str value (_content w)) in
   resize env (set_content c w))%io.

(** [void contentAdd(std::function<std::string()> func)] *)
Definition contentAdd_fn (env : Env) (func : option (Env → string)) (w : t)
  : io WINDOW t :=
  (let* c := lift (Content.add_fn func (_content w)) in
   resize env (set_content c w))%io.
End Window.
Arguments t : clear implicits.
End Window.

(** ** std::rotate *)

(** [std::rotate(first, first + k, last)] on the sequence [l]: the
    iterator [first + k] must lie in [[first, last]]. *)
Definition std_rotate {A} (l : list A) (k : nat) : outcome (list A) :=
  if decide (k ≤ length l)%nat then Done (drop k l ++ take k l) else Undefined.

(** ** class Windows (lines 252-297) *)

Module Windows.
Section Windows.
Context {Env WINDOW : Type} `{!Ncurses Env WINDOW}.

Record t : Type := mk {
  _windows : gmap string (Window.t Env WINDOW);
  _windowsOrder : list string
}.

(** [Windows() = default] *)
Definition default : t := {| _windows := ∅; _windowsOrder := [] |}.

Definition set_windows (m : gmap string (Window.t Env WINDOW)) (ws : t) : t :=
  {| _windows := m; _windowsOrder := _windowsOrder ws |}.

Definition set_windowsOrder (order : list string) (ws : t) : t :=
  {| _windows := _windows ws; _windowsOrder := order |}.

(** [Window& operator[](std::string name)]: [unordered_map::operator[]]
    inserts a default-constructed [Window] under an absent key.  The
    result is the window referred to and the registry after the call. *)
Definition subscript (name : string) (ws : t) : Window.t Env WINDOW * t :=
  match _windows ws !! name with
  | Some w => (w, ws)
  | None => (Window.default,
             set_windows (<[name := Window.default]> (_windows ws)) ws)
  end.

(** [const Window& operator[](std::string name) const] *)
Definition subscript_const (name : string) (ws : t)
  : outcome (Window.t Env WINDOW) :=
  match _windows ws !! name with
  | Some w => Done w
  | None => Thrown out_of_range
  end.

(** [_windows[name].method()]: a method run on the window that
    [operator[]] refers to. *)
Definition on_window (method : Window.t Env WINDOW → io WINDOW (Window.t Env WINDOW))
    (name : string) (ws : t) : io WINDOW t :=
  let '(w, ws) := subscript name ws in
  (let* w' := method w in
   io_ret (set_windows (<[name := w']> (_windows ws)) ws))%io.

(** [void windowsOrder(std::vector<std::string> order)] *)
Definition windowsOrder (order : list string) (ws : t) : t :=
  set_windowsOrder order ws.

(** [void windowsOrder(std::string name)] *)
Definition windowsOrder_push (name : string) (ws : t) : t :=
  set_windowsOrder (_windowsOrder ws ++ [name]) ws.

(** [std::string getSelectedWindow()] *)
Definition getSelectedWindow (ws : t) : outcome string :=
  vec_at (_windowsOrder ws) 0.

(** [void updateMarkedWindow()].  The loop runs over positions
    [1 .. size - 1] of [_windowsOrder], which it does not modify. *)
Definition updateMarkedWindow (ws : t) : io WINDOW t :=
  match _windowsOrder ws with
  | [] => io_ret ws
  | head :: others =>
      (let* ws := on_window Window.markSelected head ws in
       for_each (on_window Window.unmarkSelected) others ws)%io
  end.

(** [void resizeAllWindows()]: the iteration order of the
    [unordered_map] is that of [map_to_list]. *)
Definition resizeAllWindows (env : Env) (ws : t) : io WINDOW t :=
  (let* _ := emit (c_wnoutrefresh None) in
   for_each (λ kw ws, on_window (Window.resize env) kw.1 ws)
            (map_to_list (_windows ws)) ws)%io.

(** [void rotateRightSelectedWindow()]: [std::rotate] over the reverse
    iterators, with middle [rbegin() + 1]. *)
Definition rotateRightSelectedWindow (ws : t) : io WINDOW t :=
  (let* order := lift (std_rotate (reverse (_windowsOrder ws)) 1) in
   io_ret (set_windowsOrder (reverse order) ws))%io.

(** [void rotateLeftSelectedWindow()] *)
Definition rotateLeftSelectedWindow (ws : t) : io WINDOW t :=
  (let* order := lift (std_rotate (_windowsOrder ws) 1) in
   io_ret (set_windowsOrder order ws))%io.

(** [void rotateSelectedWindow(std::string direction)] *)
Definition rotateSelectedWindow (direction : string) (ws : t) : io WINDOW t :=
  (let* ws := if decide (direction = "right")
              then rotateRightSelectedWindow ws else io_ret ws in
   let* ws := if decide (direction = "left")
              then rotateLeftSelectedWindow ws else io_ret ws in
   updateMarkedWindow ws)%io.

(** [void notify(std::string message)] *)
Definition notify (env : Env) (message : string) (ws : t) : io WINDOW t :=
  (let* ws := if decide (message = "resize")
              then resizeAllWindows env ws else io_ret ws in
   let* ws := if decide (message = "rotate")
              then rotateSelectedWindow "right" ws else io_ret ws in
   if decide (message = "rotate-back")
   then rotateSelectedWindow "left" ws else io_ret ws)%io.

(** The [selected] flag of the window stored under [name]. *)
Definition selected (ws : t) (name : string) : option bool :=
  Window._selected <$> _windows ws !! name.

(** [name] is stored with an initialised surface handle. *)
Definition drawable (ws : t) (name : string) : Prop :=
  ∃ w, _windows ws !! name = Some w ∧ is_Some (Window._win w).
End Windows.
Arguments t : clear implicits.
End Windows.

(** ** class App (lines 299-333) *)

Module App.
Section App.
Context {Env WINDOW : Type} `{!Ncurses Env WINDOW}.

(** The member [curses] (class [Curses], lines 23-47) only sets the
    terminal up and tears it down. *)
Record t : Type := mk {
  _windows : Windows.t Env WINDOW
}.

(** [App() : curses(), _windows() { }] *)
Definition init : t := {| _windows := Windows.default |}.

Definition windows (app : t) : Windows.t Env WINDOW := _windows app.

(** [void addWindow(std::string name, std::function<...> func, WinOpts... opts)]:
    the right operand of the assignment is evaluated first. *)
Definition addWindow (env : Env) (name : string)
    (func : option (Env → list Z)) (opts : list WinOpt) (app : t)
  : io WINDOW t :=
  (let* w := Window.make env name func in
   let '(_, ws) := Windows.subscript name (windows app) in
   let ws := Windows.set_windows (<[name := w]> (Windows._windows ws)) ws in
   let* ws := for_each (λ opt ws,
                 Windows.on_window (Window.setOption env opt) name ws)
               opts ws in
   let ws := Windows.windowsOrder_push name ws in
   let* _ := emit c_doupdate in
   io_ret {| _windows := ws |})%io.

(** [void setWindowsOrder(std::vector<std::string> order)] *)
Definition setWindowsOrder (order : list string) (app : t) : t :=
  {| _windows := Windows.windowsOrder order (windows app) |}.

(** [Window& window(std::string name)]: the window referred to and the
    application after the call. *)
Definition window (name : string) (app : t)
  : outcome (Window.t Env WINDOW * t) :=
  let '(w, ws) := Windows.subscript name (windows app) in
  Done (w, {| _windows := ws |}).

(** Key codes of [run]: ['q'], ['\t'], and [KEY_BTAB], [KEY_RESIZE] of
    [ncurses.h]. *)
Definition key_q : Z := 113.
Definition key_tab : Z := 9.
Definition KEY_BTAB : Z := 353.
Definition KEY_RESIZE : Z := 410.

(** The loop of [run] over the keys that [getch()] returns, each with
    the terminal state at that moment; it stops at ['q'], and waits
    when the input is used up. *)
Fixpoint loop (input : list (Env * Z)) (ws : Windows.t Env WINDOW)
  : io WINDOW (Windows.t Env WINDOW) :=
  match input with
  | [] => io_ret ws
  | (env, c) :: input' =>
      if decide (c = key_q) then io_ret ws
      else
        (let* ws := if decide (c = KEY_RESIZE)
                    then Windows.notify env "resize" ws else io_ret ws in
         let* ws := if decide (c = key_tab)
                    then Windows.notify env "rotate" ws else io_ret ws in
         let* ws := if decide (c = KEY_BTAB)
                    then Windows.notify env "rotate-back" ws else io_ret ws in
         let* _ := emit c_doupdate in
         loop input' ws)%io
  end.

(** [void run()] *)
Definition run (env : Env) (input : list (Env * Z)) (app : t) : io WINDOW t :=
  (let* ws := Windows.notify env "rotate" (windows app) in
   let* ws := loop input ws in
   io_ret {| _windows := ws |})%io.
End App.
Arguments t : clear implicits.
End App.

(** ** A terminal that grants every surface as asked

    Used to run the program on concrete inputs: the terminal state is its
    size [(lines, columns)], a surface is its geometry. *)

Record surface : Type := Surface {
  s_maxy : Z; s_maxx : Z; s_begy : Z; s_begx : Z
}.

#[global] Instance plain_terminal : Ncurses (Z * Z) surface := {|
  newwin := λ _ h w y x, Surface h w y x;
  mvwin := λ s y x, Surface (s_maxy s) (s_maxx s) y x;
  wresize := λ s h w, Surface h w (s_begy s) (s_begx s);
  getmaxx := s_maxx;
  getmaxy := s_maxy
|}.

(** ** initWindows, initContent and main (lines 336-378) *)

Module Main.
Section Main.
Context {Env WINDOW : Type} `{!Ncurses Env WINDOW}.

(** [getmaxy(stdscr)] and [getmaxx(stdscr)], two more queries of the
    terminal library. *)
Context (stdscr_maxy stdscr_maxx : Env → Z).

(** The producer [f1] of [initContent]: it formats, with [std::format],
    what the terminal library and the registry report about the window
    ["Vars"] when it is called. *)
Context (f1 : Env → string).

Definition STACK_WIDTH : Z := 25.
Definition INPUT_WIDTH : Z := 40.

(** The geometry providers of [initWindows]: height, width, origin row,
    origin column. *)
Definition menu_dims (env : Env) : list Z := [1; stdscr_maxx env; 0; 0].

Definition status_dims (env : Env) : list Z :=
  [1; stdscr_maxx env; stdscr_maxy env - 1; 0].

Definition stack_dims (env : Env) : list Z :=
  [stdscr_maxy env - 2; STACK_WIDTH; 1; 0].

Definition input_dims (env : Env) : list Z := [3; INPUT_WIDTH; 1; STACK_WIDTH].

Definition result_dims (env : Env) : list Z :=
  [3; stdscr_maxx env - STACK_WIDTH - INPUT_WIDTH; 1; STACK_WIDTH + INPUT_WIDTH].

Definition ops_dims (env : Env) : list Z :=
  [stdscr_maxy env - 5; INPUT_WIDTH; 4; STACK_WIDTH].

Definition vars_dims (env : Env) : list Z :=
  [stdscr_maxy env - 5; stdscr_maxx env - STACK_WIDTH - INPUT_WIDTH;
   4; STACK_WIDTH + INPUT_WIDTH].

(** The focus order that [initWindows] sets. *)
Definition focus_names : list string :=
  ["Stack"; "Ops"; "Vars"; "Result"; "Input"].

(** [void initWindows(calc::App& app)] *)
Definition initWindows (env : Env) (app : App.t Env WINDOW)
  : io WINDOW (App.t Env WINDOW) :=
  (let* _ := emit (c_wnoutrefresh None) in
   let* app := App.addWindow env "Menu" (Some menu_dims) [NOBOXED; NOTITLED] app in
   let* app := App.addWindow env "Status" (Some status_dims) [NOBOXED; NOTITLED] app in
   let* app := App.addWindow env "Stack" (Some stack_dims) [] app in
   let* app := App.addWindow env "Input" (Some input_dims) [] app in
   let* app := App.addWindow env "Result" (Some result_dims) [] app in
   let* app := App.addWindow env "Ops" (Some ops_dims) [] app in
   let* app := App.addWindow env "Vars" (Some vars_dims) [] app in
   io_ret (App.setWindowsOrder focus_names app))%io.

(** [void initContent(calc::App& app)]: [m] and [s] refer to the windows
    that [app.window] returns, inside the registry. *)
Definition initContent (env : Env) (app : App.t Env WINDOW)
  : io WINDOW (App.t Env WINDOW) :=
  (let* m := lift (App.window "Vars" app) in
   let* s := lift (App.window "Status" m.2) in
   let ws := App.windows s.2 in
   let* ws := Windows.on_window (Window.contentAdd_str env "holi") "Vars" ws in
   let* ws := Windows.on_window (Window.contentAdd_fn env (Some f1)) "Status" ws in
   io_ret (App.mk ws))%io.

(** [int main()], on the keys that [getch()] returns. *)
Definition main (env : Env) (input : list (Env * Z))
  : io WINDOW (App.t Env WINDOW) :=
  (let* app := initWindows env App.init in
   let* app := initContent env app in
   App.run env input app)%io.

(** The cell [(y, x)] of the terminal lies in the rectangle [dims]. *)
Definition covers (dims : list Z) (y x : Z) : bool :=
  match dims with
  | [h; w; y0; x0] => (y0 <=? y) && (y <? y0 + h) && (x0 <=? x) && (x <? x0 + w)
  | _ => false
  end.
End Main.
End Main.

(** * Vocabulary of the properties *)

(** [l] rotated right and left by one position. *)
Definition rotate_right {A} (l : list A) : list A :=
  match reverse l with
  | [] => []
  | x :: init => x :: reverse init
  end.

Definition rotate_left {A} (l : list A) : list A :=
  match l with
  | [] => []
  | x :: rest => rest ++ [x]
  end.

(** The calls that write [c] on [s], in reverse video when [sel]. *)
Definition highlighted {WINDOW} (sel : bool) (s : WINDOW) (c : call WINDOW)
  : list (call WINDOW) :=
  if sel then [c_wattron s A_REVERSE; c; c_wattroff s A_REVERSE] else [c].

(** The text contains the character [%]. *)
Fixpoint has_percent (text : string) : bool :=
  match text with
  | EmptyString => false
  | String a rest => Ascii.eqb a "%"%char || has_percent rest
  end.

Section Vocabulary.
Context {Env WINDOW : Type}.
Implicit Types (w : Window.t Env WINDOW) (ws : Windows.t Env WINDOW).
Implicit Types (name head : string) (order others : list string).

(** What [updateMarkedWindow] makes of the window stored under [name]:
    the unmarking of positions [1 ..] comes after the marking of the
    head. *)
Definition marking order name w : Window.t Env WINDOW :=
  match order with
  | [] => w
  | head :: others =>
      if decide (name ∈ others) then Window.set_selected false w
      else if decide (name = head) then Window.set_selected true w
      else w
  end.

(** The focus order has no duplicates and names drawable windows only,
    and no window outside it is selected. *)
Definition focus_ready ws : Prop :=
  NoDup (Windows._windowsOrder ws)
  ∧ (∀ name, name ∈ Windows._windowsOrder ws → Windows.drawable ws name)
  ∧ (∀ name w, Windows._windows ws !! name = Some w →
       name ∉ Windows._windowsOrder ws → Window._selected w = false).

(** Exactly one stored window is selected: the one named by the head of
    the focus order. *)
Definition head_selected ws : Prop :=
  ∃ head others w,
    Windows._windowsOrder ws = head :: others
    ∧ Windows._windows ws !! head = Some w
    ∧ ∀ name w', Windows._windows ws !! name = Some w' →
        (Window._selected w' = true ↔ name = head).

(** The two rotation requests of [notify]. *)
Definition rotation (message : string) : Prop :=
  message = "rotate" ∨ message = "rotate-back".

(** A window as [addWindow] keeps it under [name]: built from [f], with a
    surface, not selected. *)
Definition registered name (f : Env → list Z) w : Prop :=
  Window._getDims w = Some f ∧ is_Some (Window._win w)
  ∧ Window._name w = name ∧ Window._selected w = false.
End Vocabulary.

(** * Vocabulary of the further properties *)

Section Vocabulary2.
Context {Env WINDOW : Type}.
Implicit Types (w : Window.t Env WINDOW) (ws : Windows.t Env WINDOW).

(** The decoration flag that [setOption] assigns for [opt]. *)
Definition option_flag (opt : WinOpt) w : Window.t Env WINDOW :=
  match opt with
  | BOXED => Window.set_boxed true w
  | NOBOXED => Window.set_boxed false w
  | TITLED => Window.set_titled true w
  | NOTITLED => Window.set_titled false w
  | LALIGNED => Window.set_title_align "left" w
  | CALIGNED => Window.set_title_align "center" w
  | RALIGNED => Window.set_title_align "right" w
  end.

(** The members of [Window(name, func)] before its surface is created. *)
Definition unsurfaced (name : string) (func : option (Env → list Z))
  : Window.t Env WINDOW :=
  Window.mk func Content.default None name "left" true false true.

(** Two windows that differ at most in their surface. *)
Definition same_but_win w w' : Prop :=
  Window.set_win None w' = Window.set_win None w.

(** Two windows that differ at most in their selected flag. *)
Definition same_but_selected w w' : Prop :=
  Window.set_selected false w' = Window.set_selected false w.

(** The window can be resized in terminal state [env]: its geometry
    provider can be called and yields four values, and its surface has
    been created. *)
Definition resizable (env : Env) w : Prop :=
  ∃ f s, Window._getDims w = Some f ∧ (4 ≤ length (f env))%nat
         ∧ Window._win w = Some s.

(** What a resize leaves of a window. *)
Definition resized w w' : Prop :=
  same_but_win w w' ∧ ∀ env, resizable env w → resizable env w'.

(** What every operation of the event loop leaves of a window: its
    selected flag is as before and it can be resized where it could. *)
Definition kept w w' : Prop :=
  Window._selected w' = Window._selected w
  ∧ ∀ env, resizable env w → resizable env w'.

(** Every stored window can be resized in every terminal state. *)
Definition healthy ws : Prop :=
  ∀ name w, Windows._windows ws !! name = Some w → ∀ env, resizable env w.

(** The registries store the same windows under the same names, up to a
    relation on windows. *)
Definition windows_related (R : Window.t Env WINDOW → Window.t Env WINDOW → Prop)
    ws ws' : Prop :=
  ∀ name, option_Forall2 R (Windows._windows ws !! name)
            (Windows._windows ws' !! name).
End Vocabulary2.

Section Vocabulary3.
Context {Env WINDOW : Type}.
Context (stdscr_maxy stdscr_maxx : Env → Z).

(** The windows that [initWindows] adds, in order: name, geometry
    provider, options. *)
Definition layout : list (string * (Env → list Z) * list WinOpt) :=
  [("Menu", Main.menu_dims stdscr_maxx, [NOBOXED; NOTITLED]);
   ("Status", Main.status_dims stdscr_maxy stdscr_maxx, [NOBOXED; NOTITLED]);
   ("Stack", Main.stack_dims stdscr_maxy, []);
   ("Input", Main.input_dims, []);
   ("Result", Main.result_dims stdscr_maxx, []);
   ("Ops", Main.ops_dims stdscr_maxy, []);
   ("Vars", Main.vars_dims stdscr_maxy stdscr_maxx, [])].

(** The window that [addWindow] stores for an entry of the layout, up to
    its surface. *)
Definition laid_out (entry : string * (Env → list Z) * list WinOpt)
    (w : Window.t Env WINDOW) : Prop :=
  Window.set_win None w
  = foldl (λ w opt, option_flag opt w)
      (unsurfaced entry.1.1 (Some entry.1.2)) entry.2
  ∧ is_Some (Window._win w).

(** The registries store windows under the same names. *)
Definition same_names (ws ws' : Windows.t Env WINDOW) : Prop :=
  windows_related (λ _ _, True) ws ws'.

(** What the event loop keeps: every stored window can be resized in
    every terminal state, the focus order is ready, and exactly its head
    is selected. *)
Definition in_order (ws : Windows.t Env WINDOW) : Prop :=
  healthy ws ∧ focus_ready ws ∧ head_selected ws.
End Vocabulary3.

(** * Concrete inputs

    On the terminal [plain_terminal], of 24 lines and 80 columns. *)

Definition term : Z * Z := (24, 80).

Definition geometry : option (Z * Z → list Z) := Some (λ _, [3; 20; 0; 0]).

(** The window that [Window(name, geometry)] constructs. *)
Definition plain_window (name : string) : Window.t (Z * Z) surface :=
  Window.mk geometry Content.default (Some (Surface 3 20 0 0))
    name "left" true false true.

(** A bordered, titled, centre-aligned window named ["Stack"], 20 columns
    wide. *)
Definition stack_window : Window.t (Z * Z) surface :=
  Window.set_title_align "center" (plain_window "Stack").

Definition registry (names order : list string) : Windows.t (Z * Z) surface :=
  Windows.mk (list_to_map ((λ name, (name, plain_window name)) <$> names)) order.

Definition registry_abc : Windows.t (Z * Z) surface :=
  registry ["A"; "B"; "C"] ["A"; "B"; "C"].

Definition registry_aa : Windows.t (Z * Z) surface :=
  registry ["A"] ["A"; "A"].

(** The registry [registry_abc] with its head selected. *)
Definition registry_abc_focused : Windows.t (Z * Z) surface :=
  Windows.mk
    (<["A" := Window.set_selected true (plain_window "A")]>
       (Windows._windows registry_abc))
    ["A"; "B"; "C"].

(** The window [stack_window] on a surface of five columns, which its
    title does not fit. *)
Definition narrow_window : Window.t (Z * Z) surface :=
  Window.set_win (Some (Surface 3 5 0 0)) stack_window.

(** A grid of one row and three columns, over a terminal state that is a
    flag. *)
Definition grid3 : Content.t bool :=
  Content.with_content Content.default
    [[Item.of_str "a"; Item.of_fn (Some (λ b : bool, if b then "on" else "off"));
      Item.default]].

(** * Properties *)

(** ** Vectors and outcomes *)

Lemma vec_at_Done {A} (v : list A) (i : Z) (a : A) :
  vec_at v i = Done a ↔ 0 ≤ i ∧ v !! Z.to_nat i = Some a.
Proof.
  unfold vec_at. split.
  - destruct (0 <=? i) eqn:Hi; simpl; [|done].
    destruct (i <? Z.of_nat (length v)); [|done].
    destruct (v !! Z.to_nat i); [|done].
    intros [= ->]. split; [lia|done].
  - intros [Hi Hl].
    assert (Z.to_nat i < length v)%nat by (by eapply lookup_lt_Some).
    replace (0 <=? i) with true by lia.
    replace (i <? Z.of_nat (length v)) with true by lia.
    simpl. by rewrite Hl.
Qed.

Lemma vec_at_Undefined {A} (v : list A) (i : Z) :
  (∀ a, vec_at v i ≠ Done a) → vec_at v i = Undefined.
Proof.
  unfold vec_at. intros H.
  destruct ((0 <=? i) && (i <? Z.of_nat (length v))); [|done].
  destruct (v !! Z.to_nat i) as [a|]; [|done]. by destruct (H a).
Qed.

Lemma vec_at_outside {A} (v : list A) (i : Z) :
  ¬ (0 ≤ i < Z.of_nat (length v)) → vec_at v i = Undefined.
Proof.
  intros H. apply vec_at_Undefined. intros a [Hi Hl]%vec_at_Done.
  apply lookup_lt_Some in Hl. lia.
Qed.

(** ** Item *)

Section ItemFacts.
Context {Env : Type}.
Implicit Types (i : Item.t Env) (env : Env).

Lemma value_enable env i : Item.value env (Item.enable i) = Item.value env i.
Proof. done. Qed.

Lemma value_disable env i : Item.value env (Item.disable i) = Item.value env i.
Proof. done. Qed.

Lemma value_value_str env v i : Item.value env (Item.value_str v i) = Done v.
Proof. done. Qed.

Lemma value_value_fn env f i :
  Item.value env (Item.value_fn (Some f) i) = Done (f env).
Proof. done. Qed.

Lemma value_value_fn_empty env i :
  Item.value env (Item.value_fn None i) = Thrown bad_function_call.
Proof. done. Qed.

Lemma enabled_value_str v i : Item.enabled (Item.value_str v i) = true.
Proof. done. Qed.

Lemma enabled_value_fn f i : Item.enabled (Item.value_fn f i) = true.
Proof. done. Qed.

(** What [print] writes for an enabled cell whose value is [v]. *)
Lemma print_enabled {W} env (win : W) row col width i v :
  Item.enabled i = true →
  Item.value env i = Done v →
  in_int (width - to_int (size v)) = true →
  Item.print env win row col width i
  = Done (tt, [c_mvwprintw win row (Z.quot (width - to_int (size v)) 2) v]).
Proof.
  unfold Item.print, Item.enabled. intros -> Hv Hw. simpl.
  rewrite Hv. simpl. by rewrite Hw.
Qed.

Lemma print_disabled {W} env (win : W) row col width i :
  Item.enabled i = false →
  Item.print env win row col width i = Done (tt, []).
Proof. unfold Item.print, Item.enabled. by intros ->. Qed.
End ItemFacts.

(** ** Content *)

Section ContentFacts.
Context {Env : Type}.
Implicit Types (c : Content.t Env) (it : Item.t Env).

Lemma cell_Some c r col it :
  Content.cell c r col = Some it ↔
  0 ≤ r ∧ 0 ≤ col ∧
  ∃ cells, Content._content c !! Z.to_nat r = Some cells
           ∧ cells !! Z.to_nat col = Some it.
Proof.
  unfold Content.cell. split.
  - destruct (0 <=? r) eqn:Hr, (0 <=? col) eqn:Hc; simpl; try done.
    destruct (Content._content c !! Z.to_nat r) as [cells|] eqn:E; [|done].
    simpl. intros. repeat split; [lia|lia|]. by exists cells.
  - intros (Hr & Hc & cells & E1 & E2).
    replace (0 <=? r) with true by lia. replace (0 <=? col) with true by lia.
    simpl. rewrite E1. done.
Qed.

Lemma cell_with_content c rows r col :
  Content.cell (Content.with_content c rows) r col
  = Content.cell (Content.mk 0 0 0 0 rows) r col.
Proof. done. Qed.

(** On a valid index the assignment reaches the cell and nothing else. *)
Lemma replace_with_valid set r col c it :
  Content.cell c r col = Some it →
  ∃ c', Content.replace_with set r col c = Done c'
        ∧ Content.cell c' r col = Some (set it)
        ∧ (∀ r' col', (r', col') ≠ (r, col) →
             Content.cell c' r' col' = Content.cell c r' col')
        ∧ length (Content._content c') = length (Content._content c)
        ∧ (∀ k, length <$> Content._content c' !! k
                = length <$> Content._content c !! k)
        ∧ Content.size c' = Content.size c.
Proof.
  intros (Hr & Hc & cells & E1 & E2)%cell_Some.
  assert (Hl1 := lookup_lt_Some _ _ _ E1).
  assert (Hl2 := lookup_lt_Some _ _ _ E2).
  eexists. split; [|split; [|split; [|split; [|split]]]].
  - unfold Content.replace_with.
    rewrite (proj2 (vec_at_Done _ r cells)) by done. simpl.
    rewrite (proj2 (vec_at_Done _ col it)) by done. simpl. done.
  - apply cell_Some. repeat split; [done..|].
    eexists. split; simpl.
    + by apply list_lookup_insert_eq.
    + by apply list_lookup_insert_eq.
  - intros r' col' Hne. unfold Content.cell; simpl.
    destruct (0 <=? r') eqn:Hr', (0 <=? col') eqn:Hc'; simpl; try done.
    destruct (decide (Z.to_nat r' = Z.to_nat r)) as [Er|Er].
    + rewrite Er, E1, list_lookup_insert_eq by done. simpl.
      apply list_lookup_insert_ne. intros Ec.
      apply Hne. f_equal; lia.
    + by rewrite list_lookup_insert_ne.
  - simpl. by rewrite length_insert.
  - intros k. simpl. destruct (decide (k = Z.to_nat r)) as [->|Hk].
    + rewrite list_lookup_insert_eq, E1 by done. simpl.
      by rewrite length_insert.
    + by rewrite list_lookup_insert_ne.
  - done.
Qed.

(** Outside the grid the indexing is unchecked. *)
Lemma replace_with_invalid set r col c :
  Content.cell c r col = None →
  Content.replace_with set r col c = Undefined.
Proof.
  intros Hnone. unfold Content.replace_with.
  destruct (vec_at (Content._content c) r) as [cells| |] eqn:E1; simpl; try done.
  destruct (vec_at cells col) as [it| |] eqn:E2; simpl; try done.
  apply vec_at_Done in E1 as [Hr E1]. apply vec_at_Done in E2 as [Hc E2].
  assert (Content.cell c r col = Some it) as Hsome
    by (apply cell_Some; eauto 6).
  congruence.
  all: unfold vec_at in *; repeat case_match; congruence.
Qed.

(** The grid's own [print] reads its four coordinates and issues no
    drawing call: in the source no caller reaches [Item::print]. *)
Lemma Content_print_draws_nothing {W} (win : W) c h w y x :
  Content.print win [h; w; y; x] c = Done (tt, []).
Proof. done. Qed.
End ContentFacts.

(** ** Cells and grids: the claims *)

(** C4 as stated fails: after [add] and [replace(0, 0, "x")] the value of
    the cell is ["x"], but rendering the grid, which [Window::draw] does
    through [Content::print], issues no drawing call for the cell: a
    bordered window named ["Vars"] draws its border and its title, and
    refreshes. *)
Lemma replace_then_render_counterexample :
  ∃ c c' : Content.t (Z * Z),
    Content.add_str "holi" Content.default = Done c
    ∧ Content.replace_str 0 0 "x" c = Done c'
    ∧ Item.value term <$> Content.cell c' 0 0 = Some (Done "x")
    ∧ Content.print (Surface 3 20 0 0) [1; 18; 1; 1] c' = Done (tt, [])
    ∧ Window.getCoords (Window.set_content c' (plain_window "Vars"))
      = Done ([1; 18; 1; 1], [])
    ∧ Window.draw (Window.set_content c' (plain_window "Vars"))
      = Done (tt, [c_box (Surface 3 20 0 0);
                   c_mvwprintw (Surface 3 20 0 0) 0 2 " Vars ";
                   c_wnoutrefresh (Some (Surface 3 20 0 0))]).
Proof. eexists _, _. by vm_compute. Qed.

(** C4, amended.  After [replace(r, c, v)] on a valid index, the cell at
    [(r, c)] is enabled and reading its value ([Item::value()]) yields [v]
    for a string [v] and, for a producer, what the producer returns in
    the state in which the value is read: nothing is cached. *)
Theorem replace_then_value {Env} (c : Content.t Env) (r col : Z) :
  Content.valid_index c r col →
  (∀ v, ∃ c' it,
      Content.replace_str r col v c = Done c'
      ∧ Content.cell c' r col = Some it
      ∧ Item.enabled it = true
      ∧ ∀ env, Item.value env it = Done v)
  ∧ (∀ f, ∃ c' it,
      Content.replace_fn r col (Some f) c = Done c'
      ∧ Content.cell c' r col = Some it
      ∧ Item.enabled it = true
      ∧ ∀ env, Item.value env it = Done (f env)).
Proof.
  intros [it0 Hcell]. split.
  - intros v.
    destruct (replace_with_valid (Item.value_str v) r col c it0 Hcell)
      as (c' & Hrep & Hnew & _).
    by exists c', (Item.value_str v it0).
  - intros f.
    destruct (replace_with_valid (Item.value_fn (Some f)) r col c it0 Hcell)
      as (c' & Hrep & Hnew & _).
    by exists c', (Item.value_fn (Some f) it0).
Qed.

Lemma replace_then_value_witness :
  Content.valid_index grid3 0 1
  ∧ (∃ c' it,
       Content.replace_str 0 1 "x" grid3 = Done c'
       ∧ Content.cell c' 0 1 = Some it
       ∧ Item.value true it = Done "x")
  ∧ (∃ c' it,
       Content.replace_fn 0 0 (Some (λ b : bool, if b then "up" else "down")) grid3
       = Done c'
       ∧ Content.cell c' 0 0 = Some it
       ∧ Item.value true it = Done "up" ∧ Item.value false it = Done "down").
Proof.
  assert (H1 : Content.valid_index grid3 0 1) by (eexists; reflexivity).
  assert (H0 : Content.valid_index grid3 0 0) by (eexists; reflexivity).
  split; [exact H1|]. split.
  - destruct (proj1 (replace_then_value grid3 0 1 H1) "x")
      as (c' & it & Hr & Hc & _ & Hv).
    exists c', it. repeat split; [exact Hr|exact Hc|exact (Hv true)].
  - destruct (proj2 (replace_then_value grid3 0 0 H0)
                (λ b : bool, if b then "up" else "down"))
      as (c' & it & Hr & Hc & _ & Hv).
    exists c', it.
    repeat split; [exact Hr|exact Hc|exact (Hv true)|exact (Hv false)].
Defined.

(** C5 as stated fails: [replace(0, 5, "x")] on a grid with three columns
    indexes the row without a bounds check; no error is raised. *)
Lemma replace_out_of_range_counterexample :
  length <$> Content._content grid3 !! 0%nat = Some 3%nat
  ∧ Content.replace_str 0 5 "x" grid3 = Undefined
  ∧ ¬ ∃ e, Content.replace_str 0 5 "x" grid3 = Thrown e.
Proof. split; [done|]. split; [done|]. by intros [e ?]. Qed.

(** C5, amended.  On a valid existing index [replace] overwrites that
    cell in place: the cell receives the value, every other cell and the
    shape of the grid are unchanged.  On any other index the access is
    unchecked (undefined behaviour): no [OutOfRange] error is raised. *)
Theorem replace_in_place {Env} (c : Content.t Env) (r col : Z) :
  (∀ it, Content.cell c r col = Some it →
     (∀ v, ∃ c',
        Content.replace_str r col v c = Done c'
        ∧ Content.cell c' r col = Some (Item.value_str v it)
        ∧ (∀ r' col', (r', col') ≠ (r, col) →
             Content.cell c' r' col' = Content.cell c r' col')
        ∧ length (Content._content c') = length (Content._content c)
        ∧ (∀ k, length <$> Content._content c' !! k
                = length <$> Content._content c !! k)
        ∧ Content.size c' = Content.size c)
     ∧ (∀ f, ∃ c',
        Content.replace_fn r col f c = Done c'
        ∧ Content.cell c' r col = Some (Item.value_fn f it)
        ∧ (∀ r' col', (r', col') ≠ (r, col) →
             Content.cell c' r' col' = Content.cell c r' col')
        ∧ length (Content._content c') = length (Content._content c)
        ∧ (∀ k, length <$> Content._content c' !! k
                = length <$> Content._content c !! k)
        ∧ Content.size c' = Content.size c))
  ∧ (¬ Content.valid_index c r col →
     (∀ v, Content.replace_str r col v c = Undefined)
     ∧ (∀ f, Content.replace_fn r col f c = Undefined)).
Proof.
  split.
  - intros it Hcell. split.
    + intros v. exact (replace_with_valid (Item.value_str v) r col c it Hcell).
    + intros f. exact (replace_with_valid (Item.value_fn f) r col c it Hcell).
  - intros Hinv.
    assert (Content.cell c r col = None) as Hnone.
    { destruct (Content.cell c r col) eqn:E; [|done].
      destruct Hinv. by eexists. }
    split; intros; by apply replace_with_invalid.
Qed.

Lemma replace_in_place_witness :
  Content.cell grid3 0 2 = Some Item.default
  ∧ (∃ c', Content.replace_str 0 2 "x" grid3 = Done c'
           ∧ Content.cell c' 0 2 = Some (Item.value_str "x" Item.default)
           ∧ Content.cell c' 0 0 = Content.cell grid3 0 0)
  ∧ ¬ Content.valid_index grid3 0 5
  ∧ Content.replace_str 0 5 "x" grid3 = Undefined.
Proof.
  assert (Hc : Content.cell grid3 0 2 = Some Item.default) by reflexivity.
  assert (Hn : ¬ Content.valid_index grid3 0 5) by (by intros [it Hit]).
  split; [exact Hc|]. split; [|split; [exact Hn|]].
  - destruct (proj1 (proj1 (replace_in_place grid3 0 2) _ Hc) "x")
      as (c' & Hr & Hnew & Hframe & _).
    exists c'. repeat split; [exact Hr|exact Hnew|].
    apply Hframe. intros [=].
  - exact (proj1 (proj2 (replace_in_place grid3 0 5) Hn) "x").
Defined.

(** C6 as stated fails: a cell given the value ["x"] and then disabled
    still returns ["x"], not the empty string. *)
Lemma value_disabled_counterexample :
  let it : Item.t unit := Item.disable (Item.of_str "x") in
  Item.enabled it = false
  ∧ Item.value tt it = Done "x"
  ∧ Item.value tt it ≠ Done "".
Proof. repeat split; done. Qed.

(** C6, amended.  [value()] returns the stored literal string, or the
    producer's result for a dynamic cell, whether the cell is enabled or
    not: enabling and disabling do not change it, and a cell that was
    never given a value returns the empty string.  It is [print] that
    tests the enabled flag: for a disabled cell it issues no drawing
    call. *)
Theorem value_ignores_enabled {Env} (i : Item.t Env) (env : Env) :
  Item.value env (Item.disable i) = Item.value env i
  ∧ Item.value env (Item.enable i) = Item.value env i
  ∧ (∀ v, Item.value env (Item.value_str v i) = Done v
          ∧ Item.value env (Item.disable (Item.value_str v i)) = Done v)
  ∧ (∀ f, Item.value env (Item.value_fn (Some f) i) = Done (f env)
          ∧ Item.value env (Item.disable (Item.value_fn (Some f) i))
            = Done (f env))
  ∧ Item.value env Item.default = Done ""
  ∧ (∀ (W : Type) (win : W) row col width,
       Item.print env win row col width (Item.disable i) = Done (tt, [])).
Proof.
  repeat split; try done.
Qed.

(** ** Window *)

Section WindowFacts.
Context {Env WINDOW : Type} `{!Ncurses Env WINDOW}.
Implicit Types (w : Window.t Env WINDOW) (s : WINDOW).

Lemma win_Some w s : Window._win w = Some s → Window.win w = Done (s, []).
Proof. unfold Window.win. by intros ->. Qed.

Lemma win_None w : Window._win w = None → Window.win w = Undefined.
Proof. unfold Window.win. by intros ->. Qed.

(** Drawing needs nothing but an initialised surface handle. *)
Lemma draw_Done w s :
  Window._win w = Some s → ∃ tr, Window.draw w = Done (tt, tr).
Proof.
  intros Hs.
  unfold Window.draw, Window.drawBox, Window.putTitle, Window.getCoords,
    Window.refresh, Content.print.
  rewrite (win_Some w s Hs).
  destruct (Window._boxed w), (Window._titled w), (Window._selected w);
    repeat case_decide; cbn; eauto.
Qed.

Lemma draw_Undefined w : Window._win w = None → Window.draw w = Undefined.
Proof.
  intros Hs.
  unfold Window.draw, Window.drawBox, Window.putTitle, Window.getCoords.
  rewrite (win_None w Hs).
  destruct (Window._boxed w), (Window._titled w), (Window._selected w);
    repeat case_decide; cbn; eauto.
Qed.

Lemma markSelected_Done w s :
  Window._win w = Some s →
  ∃ tr, Window.markSelected w = Done (Window.set_selected true w, tr).
Proof.
  intros Hs. unfold Window.markSelected.
  destruct (draw_Done (Window.set_selected true w) s Hs) as [tr ->].
  rewrite (win_Some (Window.set_selected true w) s Hs). cbn. eauto.
Qed.

Lemma unmarkSelected_Done w s :
  Window._win w = Some s →
  ∃ tr, Window.unmarkSelected w = Done (Window.set_selected false w, tr).
Proof.
  intros Hs. unfold Window.unmarkSelected.
  destruct (draw_Done (Window.set_selected false w) s Hs) as [tr ->].
  cbn. eauto.
Qed.

Lemma markSelected_Undefined w :
  Window._win w = None → Window.markSelected w = Undefined.
Proof.
  intros Hs. unfold Window.markSelected.
  by rewrite (draw_Undefined (Window.set_selected true w) Hs).
Qed.
End WindowFacts.

(** ** The title (C9) *)

Lemma size_nonneg (s : string) : 0 ≤ size s.
Proof. unfold size. lia. Qed.

Lemma size_append (s1 s2 : string) : size (s1 +:+ s2) = size s1 + size s2.
Proof.
  unfold size. induction s1 as [|a s1 IH].
  - done.
  - change (String a s1 +:+ s2) with (String a (s1 +:+ s2)).
    cbn [String.length]. lia.
Qed.

(** [startx] of a centred title: the difference is taken in [size_t] and
    halved there; stored in an [int], it is the floor of half the signed
    difference. *)
Lemma center_startx (width len : Z) :
  INT_MIN ≤ width ≤ INT_MAX → 0 ≤ len ≤ INT_MAX →
  to_int (to_size_t (to_size_t width - len) / 2) = (width - len) / 2.
Proof.
  unfold to_int, to_size_t, INT_MIN, INT_MAX.
  change (2 ^ 31) with 2147483648. change (2 ^ 32) with 4294967296.
  change (2 ^ 64) with 18446744073709551616.
  intros Hw Hl. Z.div_mod_to_equations. lia.
Qed.

(** When the title fits the width, rounding down and truncating agree. *)
Lemma center_startx_quot (width len : Z) :
  len ≤ width → (width - len) / 2 = Z.quot (width - len) 2.
Proof. intros H. symmetry. apply Z.quot_div_nonneg; lia. Qed.

(** [startx] of a right-aligned title. *)
Lemma right_startx (width len : Z) :
  INT_MIN ≤ width ≤ INT_MAX → 0 ≤ len → INT_MIN ≤ width - len - 2 →
  to_int (to_size_t (to_size_t (to_size_t width - len) - 2)) = width - len - 2.
Proof.
  unfold to_int, to_size_t, INT_MIN, INT_MAX.
  change (2 ^ 31) with 2147483648. change (2 ^ 32) with 4294967296.
  change (2 ^ 64) with 18446744073709551616.
  intros Hw Hl. Z.div_mod_to_equations. lia.
Qed.

(** A format without [%] is printed as it is. *)
Lemma printf_no_args_plain (text : string) :
  has_percent text = false → printf_no_args text = Done text.
Proof.
  induction text as [|a rest IH]; [done|].
  cbn [has_percent printf_no_args]. intros [Ha Hrest]%orb_false_iff.
  rewrite Ha, (IH Hrest). done.
Qed.

Lemma has_percent_append (s1 s2 : string) :
  has_percent (s1 +:+ s2) = has_percent s1 || has_percent s2.
Proof.
  induction s1 as [|a s1 IH]; [done|].
  change (String a s1 +:+ s2) with (String a (s1 +:+ s2)).
  cbn [has_percent]. by rewrite IH, orb_assoc.
Qed.




(** ** Windows: marking and rotation *)

Lemma rotate_right_snoc {A} (init : list A) x :
  rotate_right (init ++ [x]) = x :: init.
Proof. unfold rotate_right. by rewrite reverse_snoc, reverse_involutive. Qed.

Lemma rotate_left_right {A} (l : list A) : rotate_left (rotate_right l) = l.
Proof.
  destruct l as [|x init _] using rev_ind; [done|].
  by rewrite rotate_right_snoc.
Qed.

Lemma rotate_right_left {A} (l : list A) : rotate_right (rotate_left l) = l.
Proof. destruct l as [|x rest]; [done|]. apply rotate_right_snoc. Qed.

Lemma rotate_right_nil_inv {A} (l : list A) : rotate_right l = [] → l = [].
Proof.
  destruct l as [|x init _] using rev_ind; [done|].
  by rewrite rotate_right_snoc.
Qed.

Lemma rotate_left_nil_inv {A} (l : list A) : rotate_left l = [] → l = [].
Proof. destruct l as [|x [|y rest]]; done. Qed.

Lemma elem_of_rotate_right {A} (l : list A) a : a ∈ rotate_right l ↔ a ∈ l.
Proof.
  destruct l as [|x init _] using rev_ind; [done|].
  rewrite rotate_right_snoc, elem_of_cons, elem_of_app, list_elem_of_singleton.
  tauto.
Qed.

Lemma elem_of_rotate_left {A} (l : list A) a : a ∈ rotate_left l ↔ a ∈ l.
Proof.
  destruct l as [|x rest]; [done|]. simpl.
  rewrite elem_of_cons, elem_of_app, list_elem_of_singleton. tauto.
Qed.

Lemma NoDup_rotate_right {A} (l : list A) : NoDup l → NoDup (rotate_right l).
Proof.
  destruct l as [|x init _] using rev_ind; [done|].
  rewrite rotate_right_snoc. intros H.
  apply NoDup_app in H as (? & Hx & ?). apply NoDup_cons. split; [|done].
  intros Hin. apply (Hx x Hin). by apply list_elem_of_singleton.
Qed.

Lemma NoDup_rotate_left {A} (l : list A) : NoDup l → NoDup (rotate_left l).
Proof.
  destruct l as [|x rest]; [done|]. simpl. intros [Hx H]%NoDup_cons.
  apply NoDup_app. split; [done|]. split; [|apply NoDup_singleton].
  intros y Hy ->%list_elem_of_singleton. done.
Qed.

Lemma std_rotate_1_nil {A} : std_rotate (@nil A) 1 = Undefined.
Proof. done. Qed.

Lemma std_rotate_1_cons {A} (x : A) rest :
  std_rotate (x :: rest) 1 = Done (rest ++ [x]).
Proof.
  unfold std_rotate. rewrite decide_True by (simpl; lia).
  simpl. by rewrite take_0.
Qed.

Lemma for_each_app {W S X} (body : X → S → io W S) (xs ys : list X) (s : S) :
  for_each body (xs ++ ys) s = io_bind (for_each body xs s) (for_each body ys).
Proof.
  revert s. induction xs as [|x xs IH]; intros s; simpl.
  - unfold io_ret. simpl. by destruct (for_each body ys s) as [[]| |].
  - destruct (body x s) as [[s1 t1]| |]; simpl; [|done..].
    rewrite IH.
    destruct (for_each body xs s1) as [[s2 t2]| |]; simpl; [|done..].
    destruct (for_each body ys s2) as [[s3 t3]| |]; simpl; [|done..].
    by rewrite app_assoc.
Qed.

Section WindowsFacts.
Context {Env WINDOW : Type} `{!Ncurses Env WINDOW}.
Implicit Types (w : Window.t Env WINDOW) (ws : Windows.t Env WINDOW).
Implicit Types (name head : string) (order others : list string).

Lemma drawable_lookup ws name :
  Windows.drawable ws name ↔
  ∃ w s, Windows._windows ws !! name = Some w ∧ Window._win w = Some s.
Proof.
  unfold Windows.drawable. split.
  - intros (w & Hw & s & Hs). eauto.
  - intros (w & s & Hw & Hs). eauto.
Qed.

Lemma on_window_Done method name ws w w' tr :
  Windows._windows ws !! name = Some w →
  method w = Done (w', tr) →
  Windows.on_window method name ws
  = Done (Windows.set_windows (<[name := w']> (Windows._windows ws)) ws, tr).
Proof.
  intros Hw Hm. unfold Windows.on_window, Windows.subscript.
  rewrite Hw, Hm. simpl. by rewrite app_nil_r.
Qed.

(** A name that is not stored is given a default window, whose surface
    handle is not initialised: drawing on it is undefined. *)
Lemma on_window_markSelected_absent name ws :
  Windows._windows ws !! name = None →
  Windows.on_window Window.markSelected name ws = Undefined.
Proof.
  intros Hw. unfold Windows.on_window, Windows.subscript. rewrite Hw.
  by rewrite markSelected_Undefined.
Qed.

Lemma unmark_all others ws :
  (∀ name, name ∈ others → Windows.drawable ws name) →
  ∃ ws' tr,
    for_each (Windows.on_window Window.unmarkSelected) others ws = Done (ws', tr)
    ∧ Windows._windowsOrder ws' = Windows._windowsOrder ws
    ∧ ∀ name, Windows._windows ws' !! name
              = (λ w, if decide (name ∈ others)
                      then Window.set_selected false w else w)
                <$> Windows._windows ws !! name.
Proof.
  revert ws. induction others as [|x others IH]; intros ws Hd.
  - exists ws, []. repeat split; try done.
    intros name. by destruct (Windows._windows ws !! name).
  - destruct (proj1 (drawable_lookup ws x) (Hd x ltac:(left)))
      as (w & s & Hw & Hs).
    destruct (unmarkSelected_Done w s Hs) as [tr1 Hun].
    simpl. rewrite (on_window_Done _ _ _ _ _ _ Hw Hun).
    set (ws1 := Windows.set_windows _ ws).
    destruct (IH ws1) as (ws' & tr2 & Hrun & Hord & Hlook).
    { intros name Hin.
      destruct (proj1 (drawable_lookup ws name) (Hd name ltac:(by right)))
        as (w0 & s0 & Hw0 & Hs0).
      apply drawable_lookup. unfold ws1; simpl.
      destruct (decide (x = name)) as [->|Hne].
      - rewrite lookup_insert_eq. eauto.
      - rewrite lookup_insert_ne by done. eauto. }
    unfold io_bind at 1. rewrite Hrun.
    exists ws', (tr1 ++ tr2). split; [done|]. split; [done|].
    intros name. rewrite Hlook. unfold ws1; simpl.
    destruct (decide (x = name)) as [->|Hne].
    + rewrite lookup_insert_eq, Hw. simpl.
      rewrite (decide_True (P := name ∈ name :: others)) by left.
      by case_decide.
    + rewrite lookup_insert_ne by done.
      destruct (Windows._windows ws !! name); [simpl|done].
      destruct (decide (name ∈ others)) as [Hin|Hnin].
      * by rewrite (decide_True (P := name ∈ x :: others)) by (by right).
      * rewrite (decide_False (P := name ∈ x :: others)); [done|].
        by intros [->|?]%elem_of_cons.
Qed.

Lemma updateMarkedWindow_Done ws :
  (∀ name, name ∈ Windows._windowsOrder ws → Windows.drawable ws name) →
  ∃ ws' tr,
    Windows.updateMarkedWindow ws = Done (ws', tr)
    ∧ Windows._windowsOrder ws' = Windows._windowsOrder ws
    ∧ ∀ name, Windows._windows ws' !! name
              = marking (Windows._windowsOrder ws) name
                <$> Windows._windows ws !! name.
Proof.
  intros Hd. unfold Windows.updateMarkedWindow, marking.
  destruct (Windows._windowsOrder ws) as [|head others] eqn:Horder.
  - exists ws, []. repeat split; try done.
    intros name. by destruct (Windows._windows ws !! name).
  - destruct (proj1 (drawable_lookup ws head) (Hd head ltac:(left)))
      as (w & s & Hw & Hs).
    destruct (markSelected_Done w s Hs) as [tr1 Hmark].
    rewrite (on_window_Done _ _ _ _ _ _ Hw Hmark).
    set (ws1 := Windows.set_windows _ ws).
    destruct (unmark_all others ws1) as (ws' & tr2 & Hrun & Hord & Hlook).
    { intros name Hin.
      destruct (proj1 (drawable_lookup ws name) (Hd name ltac:(by right)))
        as (w0 & s0 & Hw0 & Hs0).
      apply drawable_lookup. unfold ws1; simpl.
      destruct (decide (head = name)) as [->|Hne].
      - rewrite lookup_insert_eq. eauto.
      - rewrite lookup_insert_ne by done. eauto. }
    unfold io_bind at 1. rewrite Hrun. exists ws', (tr1 ++ tr2).
    split; [done|]. split; [by rewrite Hord|].
    intros name. rewrite Hlook. unfold ws1; simpl.
    destruct (decide (head = name)) as [->|Hne].
    + rewrite lookup_insert_eq, Hw. simpl.
      rewrite (decide_True (P := name = name)) by done. by case_decide.
    + rewrite lookup_insert_ne by done.
      destruct (Windows._windows ws !! name); [simpl|done].
      by rewrite (decide_False (P := name = head)).
Qed.

Lemma win_marking order name w :
  Window._win (marking order name w) = Window._win w.
Proof. unfold marking. destruct order; [done|]. by repeat case_decide. Qed.

Lemma rotateRightSelectedWindow_run ws :
  Windows.rotateRightSelectedWindow ws
  = match Windows._windowsOrder ws with
    | [] => Undefined
    | _ => Done (Windows.set_windowsOrder
                   (rotate_right (Windows._windowsOrder ws)) ws, [])
    end.
Proof.
  unfold Windows.rotateRightSelectedWindow.
  destruct (Windows._windowsOrder ws) as [|x init _] using rev_ind; [done|].
  rewrite reverse_snoc, std_rotate_1_cons, rotate_right_snoc. simpl.
  rewrite reverse_snoc, reverse_involutive. by destruct init.
Qed.

Lemma rotateLeftSelectedWindow_run ws :
  Windows.rotateLeftSelectedWindow ws
  = match Windows._windowsOrder ws with
    | [] => Undefined
    | _ => Done (Windows.set_windowsOrder
                   (rotate_left (Windows._windowsOrder ws)) ws, [])
    end.
Proof.
  unfold Windows.rotateLeftSelectedWindow.
  destruct (Windows._windowsOrder ws) as [|x rest]; [done|].
  by rewrite std_rotate_1_cons.
Qed.

Lemma notify_rotate_unfold env ws :
  Windows.notify env "rotate" ws
  = io_bind (Windows.rotateRightSelectedWindow ws) Windows.updateMarkedWindow.
Proof.
  unfold Windows.notify, Windows.rotateSelectedWindow.
  unfold io_ret, io_bind. cbn [decide decide_rel]. simpl.
  destruct (Windows.rotateRightSelectedWindow ws) as [[ws1 t1]| |]; [|done..].
  destruct (Windows.updateMarkedWindow ws1) as [[ws2 t2]| |]; [|done..].
  by rewrite !app_nil_r.
Qed.

Lemma notify_rotate_back_unfold env ws :
  Windows.notify env "rotate-back" ws
  = io_bind (Windows.rotateLeftSelectedWindow ws) Windows.updateMarkedWindow.
Proof.
  unfold Windows.notify, Windows.rotateSelectedWindow.
  unfold io_ret, io_bind. cbn [decide decide_rel]. simpl.
  destruct (Windows.rotateLeftSelectedWindow ws) as [[ws1 t1]| |]; [|done..].
  destruct (Windows.updateMarkedWindow ws1) as [[ws2 t2]| |]; [|done..].
  done.
Qed.

(** A rotation request on a non-empty focus order of drawable windows:
    the order is rotated, then the selection is derived from it. *)
Lemma notify_rotate_Done env ws :
  Windows._windowsOrder ws ≠ [] →
  (∀ name, name ∈ Windows._windowsOrder ws → Windows.drawable ws name) →
  ∃ ws' tr,
    Windows.notify env "rotate" ws = Done (ws', tr)
    ∧ Windows._windowsOrder ws' = rotate_right (Windows._windowsOrder ws)
    ∧ ∀ name, Windows._windows ws' !! name
              = marking (rotate_right (Windows._windowsOrder ws)) name
                <$> Windows._windows ws !! name.
Proof.
  intros Hne Hd. rewrite notify_rotate_unfold, rotateRightSelectedWindow_run.
  destruct (Windows._windowsOrder ws) as [|x rest] eqn:Horder; [done|].
  set (ws1 := Windows.set_windowsOrder _ ws).
  destruct (updateMarkedWindow_Done ws1) as (ws' & tr & Hrun & Hord & Hlook).
  { intros name Hin. unfold ws1 in Hin. simpl in Hin.
    apply (proj1 (elem_of_rotate_right _ _)) in Hin. exact (Hd name Hin). }
  simpl. rewrite Hrun. by exists ws', tr.
Qed.

Lemma notify_rotate_back_Done env ws :
  Windows._windowsOrder ws ≠ [] →
  (∀ name, name ∈ Windows._windowsOrder ws → Windows.drawable ws name) →
  ∃ ws' tr,
    Windows.notify env "rotate-back" ws = Done (ws', tr)
    ∧ Windows._windowsOrder ws' = rotate_left (Windows._windowsOrder ws)
    ∧ ∀ name, Windows._windows ws' !! name
              = marking (rotate_left (Windows._windowsOrder ws)) name
                <$> Windows._windows ws !! name.
Proof.
  intros Hne Hd. rewrite notify_rotate_back_unfold, rotateLeftSelectedWindow_run.
  destruct (Windows._windowsOrder ws) as [|x rest] eqn:Horder; [done|].
  set (ws1 := Windows.set_windowsOrder _ ws).
  destruct (updateMarkedWindow_Done ws1) as (ws' & tr & Hrun & Hord & Hlook).
  { intros name Hin. unfold ws1 in Hin. simpl in Hin.
    apply (proj1 (elem_of_rotate_left (x :: rest) name)) in Hin.
    exact (Hd name Hin). }
  simpl. rewrite Hrun. by exists ws', tr.
Qed.

(** On an empty focus order the middle iterator of [std::rotate] is
    outside the sequence. *)
Lemma notify_rotate_empty env ws :
  Windows._windowsOrder ws = [] →
  Windows.notify env "rotate" ws = Undefined
  ∧ Windows.notify env "rotate-back" ws = Undefined.
Proof.
  intros Horder.
  rewrite notify_rotate_unfold, notify_rotate_back_unfold,
    rotateRightSelectedWindow_run, rotateLeftSelectedWindow_run, Horder.
  done.
Qed.

(** A rotation keeps the windows drawable. *)
Lemma drawable_marking ws ws' order name :
  (∀ n, Windows._windows ws' !! n = marking order n <$> Windows._windows ws !! n) →
  Windows.drawable ws' name ↔ Windows.drawable ws name.
Proof.
  intros Hlook. rewrite !drawable_lookup, Hlook. split.
  - intros (w' & s & Hw' & Hs).
    destruct (Windows._windows ws !! name) as [w|]; [|done].
    simplify_eq/=. rewrite win_marking in Hs. eauto.
  - intros (w & s & -> & Hs). simpl.
    exists (marking order name w), s. by rewrite win_marking.
Qed.
End WindowsFacts.

(** ** Focus: the claims *)

Section Focus.
Context {Env WINDOW : Type} `{!Ncurses Env WINDOW}.
Implicit Types (w : Window.t Env WINDOW) (ws : Windows.t Env WINDOW).
Implicit Types (name head x : string) (order others init : list string).

Lemma marking_establishes ws ws' order :
  focus_ready ws →
  order ≠ [] → NoDup order →
  (∀ name, name ∈ order ↔ name ∈ Windows._windowsOrder ws) →
  Windows._windowsOrder ws' = order →
  (∀ name, Windows._windows ws' !! name
           = marking order name <$> Windows._windows ws !! name) →
  focus_ready ws' ∧ head_selected ws'.
Proof.
  intros (Hnd & Hd & Hout) Hne Hnd' Hsame Hord Hlook.
  destruct order as [|head others]; [done|]. clear Hne.
  apply NoDup_cons in Hnd' as Hhead. destruct Hhead as [Hhead _].
  split.
  - split; [by rewrite Hord|]. split.
    + intros name Hin. rewrite Hord in Hin.
      apply (drawable_marking ws ws' (head :: others) name Hlook).
      apply Hd. by apply Hsame.
    + intros name w' Hw' Hnin. rewrite Hord in Hnin. rewrite Hlook in Hw'.
      destruct (Windows._windows ws !! name) as [w|] eqn:Hw; [|done].
      simpl in Hw'. injection Hw' as <-.
      rewrite decide_False by (intros ?; apply Hnin; by right).
      rewrite decide_False by (intros ->; apply Hnin; by left).
      apply (Hout name w Hw). intros Hin. apply Hnin. by apply Hsame.
  - destruct (proj1 (drawable_lookup ws head)
                (Hd head (proj1 (Hsame head) ltac:(left))))
      as (w & s & Hw & Hs).
    exists head, others, (marking (head :: others) head w).
    split; [done|]. split; [by rewrite Hlook, Hw|].
    intros name w' Hw'. rewrite Hlook in Hw'.
    destruct (Windows._windows ws !! name) as [w0|] eqn:Hw0; [|done].
    simpl in Hw'. injection Hw' as <-.
    destruct (decide (name ∈ others)) as [Hin|Hnin].
    + simpl. split; [done|]. by intros ->.
    + destruct (decide (name = head)) as [->|Hneq]; [done|].
      split; [|done]. intros Hsel.
      rewrite (Hout name w0 Hw0) in Hsel; [done|].
      intros Hin. apply Hsame in Hin.
      apply elem_of_cons in Hin as [?|?]; done.
Qed.

Lemma rotation_step env message ws :
  rotation message → focus_ready ws → Windows._windowsOrder ws ≠ [] →
  ∃ ws' tr,
    Windows.notify env message ws = Done (ws', tr)
    ∧ focus_ready ws' ∧ Windows._windowsOrder ws' ≠ [] ∧ head_selected ws'.
Proof.
  intros [-> | ->] Hready Hne.
  - destruct (notify_rotate_Done env ws Hne (proj1 (proj2 Hready)))
      as (ws' & tr & Hrun & Hord & Hlook).
    exists ws', tr. split; [done|].
    assert (rotate_right (Windows._windowsOrder ws) ≠ []) as Hne'
      by (by intros ?%rotate_right_nil_inv).
    destruct (marking_establishes ws ws' _ Hready Hne'
                (NoDup_rotate_right _ (proj1 Hready))
                (elem_of_rotate_right _) Hord Hlook) as [? ?].
    by rewrite Hord.
  - destruct (notify_rotate_back_Done env ws Hne (proj1 (proj2 Hready)))
      as (ws' & tr & Hrun & Hord & Hlook).
    exists ws', tr. split; [done|].
    assert (rotate_left (Windows._windowsOrder ws) ≠ []) as Hne'
      by (by intros ?%rotate_left_nil_inv).
    destruct (marking_establishes ws ws' _ Hready Hne'
                (NoDup_rotate_left _ (proj1 Hready))
                (elem_of_rotate_left _) Hord Hlook) as [? ?].
    by rewrite Hord.
Qed.

Lemma rotation_steps env messages ws :
  Forall rotation messages →
  focus_ready ws → Windows._windowsOrder ws ≠ [] → head_selected ws →
  ∃ ws' tr,
    for_each (Windows.notify env) messages ws = Done (ws', tr)
    ∧ focus_ready ws' ∧ Windows._windowsOrder ws' ≠ [] ∧ head_selected ws'.
Proof.
  revert ws. induction messages as [|m messages IH]; intros ws Hall Hr Hne Hs.
  - by exists ws, [].
  - apply Forall_cons in Hall as [Hm Hall].
    destruct (rotation_step env m ws Hm Hr Hne)
      as (ws1 & tr1 & Hrun1 & Hr1 & Hne1 & Hs1).
    destruct (IH ws1 Hall Hr1 Hne1 Hs1) as (ws' & tr2 & Hrun2 & ?).
    exists ws', (tr1 ++ tr2). split; [|done].
    simpl. rewrite Hrun1. unfold io_bind. by rewrite Hrun2.
Qed.
End Focus.

Lemma make_plain_window name :
  result (Window.make term name geometry) = Done (plain_window name).
Proof. done. Qed.

Lemma registry_abc_drawable name :
  name ∈ ["A"; "B"; "C"] → Windows.drawable registry_abc name.
Proof.
  intros Hin. apply drawable_lookup.
  repeat (apply elem_of_cons in Hin as [->|Hin]);
    [eexists _, _; split; [vm_compute; reflexivity|reflexivity]..|].
  by apply elem_of_nil in Hin.
Qed.

(** C1 as stated fails when the new head occurs again in the focus order:
    from focus order [["A"; "A"]] the window ["A"] is marked, then
    unmarked by the loop over the other positions. *)
Lemma rotate_forward_counterexample :
  Windows._windowsOrder registry_aa = ["A"; "A"]
  ∧ ∃ ws' tr,
      Windows.notify term "rotate" registry_aa = Done (ws', tr)
      ∧ Windows._windowsOrder ws' = ["A"; "A"]
      ∧ Windows.selected ws' "A" = Some false.
Proof.
  split; [done|]. eexists _, _.
  split; [vm_compute; reflexivity|]. split; vm_compute; reflexivity.
Qed.

(** A focus order that names a window that is not stored cannot be
    rotated: [operator[]] stores a default-constructed window under the
    name, and marking it draws on a surface handle that was never
    initialised. *)
Lemma rotate_unknown_name :
  Windows._windows (registry ["A"] ["B"]) !! "B" = None
  ∧ Windows.notify term "rotate" (registry ["A"] ["B"]) = Undefined.
Proof. split; vm_compute; reflexivity. Qed.

(** C1, amended.  For every registry whose focus order is non-empty,
    names only stored windows with a created surface, and whose last name
    occurs nowhere else in it (so for every duplicate-free order), a
    RotateForward notification moves the last name to the head, keeps the
    others in order, and leaves the head window selected and every other
    window of the focus order unselected; windows outside the focus order
    are untouched.  From [["A"; "B"; "C"]]: [["C"; "A"; "B"]], C selected,
    A and B not. *)
Theorem rotate_forward_selects_head {Env WINDOW} `{!Ncurses Env WINDOW}
    (env : Env) (ws : Windows.t Env WINDOW) (init : list string) (x : string) :
  Windows._windowsOrder ws = init ++ [x] →
  x ∉ init →
  (∀ name, name ∈ Windows._windowsOrder ws → Windows.drawable ws name) →
  ∃ ws' tr,
    Windows.notify env "rotate" ws = Done (ws', tr)
    ∧ Windows._windowsOrder ws' = x :: init
    ∧ Windows.selected ws' x = Some true
    ∧ (∀ name, name ∈ init → Windows.selected ws' name = Some false)
    ∧ (∀ name, name ∉ Windows._windowsOrder ws →
         Windows._windows ws' !! name = Windows._windows ws !! name).
Proof.
  intros Horder Hx Hd.
  destruct (notify_rotate_Done env ws) as (ws' & tr & Hrun & Hord & Hlook);
    [by rewrite Horder; destruct init|done|].
  rewrite Horder, rotate_right_snoc in Hord, Hlook.
  exists ws', tr. split; [done|]. split; [done|].
  unfold Windows.selected. split; [|split].
  - destruct (proj1 (drawable_lookup ws x)
                (Hd x ltac:(rewrite Horder, elem_of_app, list_elem_of_singleton;
                            by right)))
      as (w & s & Hw & _).
    rewrite Hlook, Hw. simpl.
    rewrite decide_False by done. by rewrite decide_True.
  - intros name Hin.
    destruct (proj1 (drawable_lookup ws name)
                (Hd name ltac:(rewrite Horder, elem_of_app; by left)))
      as (w & s & Hw & _).
    rewrite Hlook, Hw. simpl. by rewrite decide_True.
  - intros name Hnin. rewrite Hlook.
    rewrite Horder, elem_of_app, list_elem_of_singleton in Hnin.
    destruct (Windows._windows ws !! name); [simpl|done].
    rewrite decide_False by tauto. rewrite decide_False by tauto. done.
Qed.

Lemma rotate_forward_selects_head_witness :
  ∃ ws' tr,
    Windows.notify term "rotate" registry_abc = Done (ws', tr)
    ∧ Windows._windowsOrder ws' = ["C"; "A"; "B"]
    ∧ Windows.selected ws' "C" = Some true
    ∧ Windows.selected ws' "A" = Some false
    ∧ Windows.selected ws' "B" = Some false.
Proof.
  assert (Hx : "C" ∉ ["A"; "B"]).
  { intros Hin. repeat (apply elem_of_cons in Hin as [Hin|Hin]; [done|]).
    by apply elem_of_nil in Hin. }
  destruct (rotate_forward_selects_head term registry_abc ["A"; "B"] "C"
              eq_refl Hx registry_abc_drawable)
    as (ws' & tr & Hrun & Hord & HC & Hinit & _).
  exists ws', tr. split; [exact Hrun|]. split; [exact Hord|].
  split; [exact HC|]. split; apply Hinit.
  - apply elem_of_cons. by left.
  - apply elem_of_cons. right. apply elem_of_cons. by left.
Defined.

(** C2 as stated fails: adding a first window extends the focus order to
    [["A"]] and selects nothing; replacing the focus order does not move
    the selection; and adding a window under the name of the selected
    head stores a fresh, unselected window in its place, which leaves no
    window selected. *)
Lemma selection_invariant_counterexample :
  (∃ app tr,
     App.addWindow term "A" geometry [] App.init = Done (app, tr)
     ∧ Windows._windowsOrder (App.windows app) = ["A"]
     ∧ Windows.selected (App.windows app) "A" = Some false)
  ∧ (∃ ws' tr,
       Windows.notify term "rotate" registry_abc = Done (ws', tr)
       ∧ Windows._windowsOrder (Windows.windowsOrder ["A"; "B"] ws') = ["A"; "B"]
       ∧ Windows.selected (Windows.windowsOrder ["A"; "B"] ws') "A" = Some false
       ∧ Windows.selected (Windows.windowsOrder ["A"; "B"] ws') "C" = Some true)
  ∧ (∃ app tr,
       Windows.selected registry_abc_focused "A" = Some true
       ∧ App.addWindow term "A" geometry [] (App.mk registry_abc_focused)
         = Done (app, tr)
       ∧ Windows._windowsOrder (App.windows app) = ["A"; "B"; "C"; "A"]
       ∧ Windows.selected (App.windows app) "A" = Some false
       ∧ Windows.selected (App.windows app) "B" = Some false
       ∧ Windows.selected (App.windows app) "C" = Some false).
Proof.
  split; [|split].
  - eexists _, _. split; [vm_compute; reflexivity|].
    split; vm_compute; reflexivity.
  - eexists _, _. split; [vm_compute; reflexivity|].
    repeat split; vm_compute; reflexivity.
  - eexists _, _. split; [vm_compute; reflexivity|].
    split; [vm_compute; reflexivity|].
    repeat split; vm_compute; reflexivity.
Qed.

Lemma registry_abc_ready : focus_ready registry_abc.
Proof.
  split; [|split].
  - simpl. repeat (apply NoDup_cons; split;
      [intros Hin; repeat (apply elem_of_cons in Hin as [Hin|Hin]; [done|]);
       by apply elem_of_nil in Hin|]).
    apply NoDup_nil_2.
  - exact registry_abc_drawable.
  - intros name w Hw _.
    unfold registry_abc, registry in Hw. simpl in Hw.
    repeat (apply lookup_insert_Some in Hw as [[_ <-]|[_ Hw]]; [done|]).
    done.
Qed.

(** [n] forward rotations then [n] backward ones, on a focus order that
    can be rotated. *)
Lemma rotations_round_trip {Env WINDOW} `{!Ncurses Env WINDOW}
    (env : Env) (ws : Windows.t Env WINDOW) (n : nat) :
  Windows._windowsOrder ws ≠ [] →
  (∀ name, name ∈ Windows._windowsOrder ws → Windows.drawable ws name) →
  ∃ ws' tr,
    for_each (Windows.notify env)
      (replicate n "rotate" ++ replicate n "rotate-back") ws = Done (ws', tr)
    ∧ Windows._windowsOrder ws' = Windows._windowsOrder ws
    ∧ ∀ name, Windows.drawable ws' name ↔ Windows.drawable ws name.
Proof.
  revert ws. induction n as [|n IH]; intros ws Hne Hd.
  { by exists ws, []. }
  destruct (notify_rotate_Done env ws Hne Hd)
    as (ws1 & tr1 & Hrun1 & Hord1 & Hlook1).
  assert (Hdraw1 := λ name, drawable_marking ws ws1 _ name Hlook1).
  destruct (IH ws1) as (ws2 & tr2 & Hrun2 & Hord2 & Hdraw2).
  { rewrite Hord1. by intros ?%rotate_right_nil_inv. }
  { intros name Hin. rewrite Hord1 in Hin.
    apply Hdraw1, Hd. by apply elem_of_rotate_right. }
  destruct (notify_rotate_back_Done env ws2)
    as (ws3 & tr3 & Hrun3 & Hord3 & Hlook3).
  { rewrite Hord2, Hord1. by intros ?%rotate_right_nil_inv. }
  { intros name Hin. rewrite Hord2, Hord1 in Hin.
    apply Hdraw2, Hdraw1, Hd. by apply elem_of_rotate_right. }
  assert (Hdraw3 := λ name, drawable_marking ws2 ws3 _ name Hlook3).
  exists ws3, (tr1 ++ (tr2 ++ (tr3 ++ []))). split; [|split].
  - rewrite (replicate_S_end n "rotate-back"). simpl.
    rewrite Hrun1. unfold io_bind at 1.
    rewrite app_assoc, for_each_app, Hrun2. simpl.
    by rewrite Hrun3.
  - by rewrite Hord3, Hord2, Hord1, rotate_left_right.
  - intros name. by rewrite Hdraw3, Hdraw2, Hdraw1.
Qed.

(** C3, with the code at the input on which it fails.  On a non-empty
    focus order that names only stored windows with a created surface,
    [n] RotateForward notifications followed by [n] RotateBackward
    notifications return, and leave the focus order as it was.  On an
    empty focus order the first notification already has undefined
    behaviour, whatever [n] > 0. *)
Theorem rotate_forward_then_backward {Env WINDOW} `{!Ncurses Env WINDOW}
    (env : Env) (ws : Windows.t Env WINDOW) (n : nat) :
  (Windows._windowsOrder ws ≠ [] →
   (∀ name, name ∈ Windows._windowsOrder ws → Windows.drawable ws name) →
   ∃ ws' tr,
     for_each (Windows.notify env)
       (replicate n "rotate" ++ replicate n "rotate-back") ws = Done (ws', tr)
     ∧ Windows._windowsOrder ws' = Windows._windowsOrder ws)
  ∧ (Windows._windowsOrder ws = [] →
     for_each (Windows.notify env)
       (replicate (S n) "rotate" ++ replicate (S n) "rotate-back") ws
     = Undefined).
Proof.
  split.
  - intros Hne Hd.
    destruct (rotations_round_trip env ws n Hne Hd) as (ws' & tr & ? & ? & _).
    by exists ws', tr.
  - intros Horder. simpl.
    by rewrite (proj1 (notify_rotate_empty env ws Horder)).
Qed.

Lemma rotate_forward_then_backward_witness :
  (∃ ws' tr,
     for_each (Windows.notify term)
       (replicate 2 "rotate" ++ replicate 2 "rotate-back") registry_abc
     = Done (ws', tr)
     ∧ Windows._windowsOrder ws' = ["A"; "B"; "C"])
  ∧ for_each (Windows.notify term)
      (replicate 1 "rotate" ++ replicate 1 "rotate-back")
      (registry ["A"; "B"; "C"] [])
    = Undefined.
Proof.
  split.
  - assert (Ho : Windows._windowsOrder registry_abc ≠ []) by discriminate.
    exact (proj1 (rotate_forward_then_backward term registry_abc 2)
             Ho registry_abc_drawable).
  - exact (proj2 (rotate_forward_then_backward term
                    (registry ["A"; "B"; "C"] []) 0) eq_refl).
Defined.

(** C10, with the code at the input on which it fails.  With an empty
    focus order, a RotateForward or a RotateBackward notification calls
    [std::rotate] with a middle iterator one past the end of the empty
    sequence: undefined behaviour, not a no-op.  [updateMarkedWindow],
    which guards the empty order, is not reached. *)
Theorem rotate_on_empty_focus_order {Env WINDOW} `{!Ncurses Env WINDOW}
    (env : Env) (ws : Windows.t Env WINDOW) :
  Windows._windowsOrder ws = [] →
  Windows.rotateRightSelectedWindow ws = Undefined
  ∧ Windows.rotateLeftSelectedWindow ws = Undefined
  ∧ Windows.notify env "rotate" ws = Undefined
  ∧ Windows.notify env "rotate-back" ws = Undefined
  ∧ Windows.updateMarkedWindow ws = Done (ws, []).
Proof.
  intros Horder.
  rewrite rotateRightSelectedWindow_run, rotateLeftSelectedWindow_run.
  destruct (notify_rotate_empty env ws Horder) as [-> ->].
  unfold Windows.updateMarkedWindow. by rewrite Horder.
Qed.

Lemma rotate_on_empty_focus_order_witness :
  Windows.notify term "rotate" Windows.default = Undefined
  ∧ Windows.notify term "rotate-back" Windows.default = Undefined.
Proof.
  destruct (rotate_on_empty_focus_order term Windows.default eq_refl)
    as (_ & _ & Hf & Hb & _).
  split; [exact Hf|exact Hb].
Defined.

(** A fresh application that is run reaches that call at once. *)
Lemma run_fresh_app input :
  App.run term input App.init = Undefined.
Proof. done. Qed.

(** ** Registration and lookup: the claims *)

Section Registration.
Context {Env WINDOW : Type} `{!Ncurses Env WINDOW}.
Implicit Types (w : Window.t Env WINDOW) (ws : Windows.t Env WINDOW).
Implicit Types (app : App.t Env WINDOW) (f : Env → list Z).

Lemma four_dims (d : list Z) :
  (4 ≤ length d)%nat →
  ∃ d0 d1 d2 d3, vec_at d 0 = Done d0 ∧ vec_at d 1 = Done d1
                 ∧ vec_at d 2 = Done d2 ∧ vec_at d 3 = Done d3.
Proof.
  destruct d as [|d0 [|d1 [|d2 [|d3 rest]]]]; simpl; try lia.
  intros _. exists d0, d1, d2, d3.
  repeat split; apply vec_at_Done; (split; [lia|done]).
Qed.

Lemma make_Done env name f :
  (4 ≤ length (f env))%nat →
  ∃ w tr, Window.make env name (Some f) = Done (w, tr) ∧ registered name f w.
Proof.
  intros (d0 & d1 & d2 & d3 & H0 & H1 & H2 & H3)%four_dims.
  unfold Window.make, Window.getDims. simpl.
  rewrite H0, H1, H2, H3. simpl.
  eexists _, _. split; [done|]. by repeat split.
Qed.

Lemma resize_Done env name f w :
  (4 ≤ length (f env))%nat → registered name f w →
  ∃ w' tr, Window.resize env w = Done (w', tr) ∧ registered name f w'.
Proof.
  intros (d0 & d1 & d2 & d3 & H0 & H1 & H2 & H3)%four_dims
    (Hf & [s Hs] & Hn & Hsel).
  unfold Window.resize, Window.getDims. rewrite Hf, (win_Some w s Hs). simpl.
  rewrite H0, H1, H2, H3. simpl.
  set (w' := Window.set_win _ _).
  destruct (draw_Done w' (wresize (mvwin s d2 d3) d0 d1) eq_refl) as [tr ->].
  simpl. eexists _, _. split; [done|]. by repeat split.
Qed.

Lemma setOption_Done env name f opt w :
  (4 ≤ length (f env))%nat → registered name f w →
  ∃ w' tr, Window.setOption env opt w = Done (w', tr) ∧ registered name f w'.
Proof.
  intros Hlen Hreg. unfold Window.setOption.
  destruct opt; by apply (resize_Done env name f).
Qed.

Lemma setOptions_Done env name f opts ws w :
  (4 ≤ length (f env))%nat →
  Windows._windows ws !! name = Some w → registered name f w →
  ∃ ws' tr w',
    for_each (λ opt ws, Windows.on_window (Window.setOption env opt) name ws)
      opts ws = Done (ws', tr)
    ∧ Windows._windowsOrder ws' = Windows._windowsOrder ws
    ∧ Windows._windows ws' !! name = Some w' ∧ registered name f w'
    ∧ ∀ other, other ≠ name →
        Windows._windows ws' !! other = Windows._windows ws !! other.
Proof.
  intros Hlen. revert ws w. induction opts as [|opt opts IH]; intros ws w Hw Hreg.
  - by exists ws, [], w.
  - destruct (setOption_Done env name f opt w Hlen Hreg) as (w1 & tr1 & Hset & Hreg1).
    simpl. rewrite (on_window_Done _ _ _ _ _ _ Hw Hset).
    set (ws1 := Windows.set_windows _ ws).
    destruct (IH ws1 w1) as (ws' & tr2 & w' & Hrun & Hord & Hw' & Hreg' & Hframe);
      [apply lookup_insert_eq|done|].
    unfold io_bind. rewrite Hrun.
    exists ws', (tr1 ++ tr2), w'.
    split; [done|]. split; [exact Hord|]. split; [done|]. split; [done|].
    intros other Hne. rewrite (Hframe other Hne). unfold ws1; simpl.
    by rewrite lookup_insert_ne.
Qed.
End Registration.




(** C8 as stated fails: looking up a name that is not stored raises no
    error and adds a default-constructed window under that name. *)
Lemma window_absent_counterexample :
  Windows._windows (App.windows (App.init (Env := Z * Z) (WINDOW := surface)))
    !! "Vars" = None
  ∧ (¬ ∃ e, App.window "Vars" (App.init (Env := Z * Z) (WINDOW := surface))
            = Thrown e)
  ∧ ∃ w app,
      App.window "Vars" (App.init (Env := Z * Z) (WINDOW := surface))
      = Done (w, app)
      ∧ Windows._windows (App.windows app) !! "Vars" = Some Window.default.
Proof.
  split; [done|]. split; [by intros [e ?]|].
  eexists _, _. split; vm_compute; reflexivity.
Qed.

(** C8, amended.  For every name absent from the window map, the
    accessor [window(name)] does not fail: it returns a reference to a
    default-constructed window (empty name and content, no geometry
    provider, no surface, not selected) that it has inserted into the map
    under that name; every other entry of the map and the focus order are
    unchanged.  Only the read-only [operator[] const] fails on an absent
    name, leaving the registry as it is. *)
Theorem window_of_absent_name {Env WINDOW} `{!Ncurses Env WINDOW}
    (name : string) (app : App.t Env WINDOW) :
  Windows._windows (App.windows app) !! name = None →
  (∃ app',
     App.window name app = Done (Window.default, app')
     ∧ Windows._windows (App.windows app')
       = <[name := Window.default]> (Windows._windows (App.windows app))
     ∧ Windows._windows (App.windows app') !! name = Some Window.default
     ∧ (∀ other, other ≠ name →
          Windows._windows (App.windows app') !! other
          = Windows._windows (App.windows app) !! other)
     ∧ Windows._windowsOrder (App.windows app')
       = Windows._windowsOrder (App.windows app))
  ∧ Windows.subscript_const name (App.windows app) = Thrown out_of_range.
Proof.
  intros Habsent. split.
  - unfold App.window, Windows.subscript. rewrite Habsent.
    eexists. split; [done|]. simpl. split; [done|].
    split; [apply lookup_insert_eq|]. split; [|done].
    intros other Hne. by rewrite lookup_insert_ne.
  - unfold Windows.subscript_const. by rewrite Habsent.
Qed.

Lemma window_of_absent_name_witness :
  ∃ app',
    App.window "Vars" (App.mk registry_abc) = Done (Window.default, app')
    ∧ Windows._windows (App.windows app') !! "Vars" = Some Window.default
    ∧ Windows._windows (App.windows app') !! "A" = Some (plain_window "A").
Proof.
  assert (Habsent : Windows._windows (App.windows (App.mk registry_abc))
                      !! "Vars" = None) by (vm_compute; reflexivity).
  destruct (proj1 (window_of_absent_name "Vars" (App.mk registry_abc) Habsent))
    as (app' & Hrun & _ & Hnew & Hframe & _).
  exists app'. split; [exact Hrun|]. split; [exact Hnew|].
  rewrite (Hframe "A") by discriminate. vm_compute. reflexivity.
Defined.

(** * Further properties of the code *)

(** ** Cells and grids *)

Section MoreContent.
Context {Env : Type}.
Implicit Types (c : Content.t Env) (it : Item.t Env).

(** [allocateNew] with the row cursor at 0. *)
Lemma allocateNew_run c :
  Content._rptr c = 0 →
  ∃ c',
    Content.allocateNew c = Done c'
    ∧ (∀ v, Content.add_str v c = Done c')
    ∧ (∀ f, Content.add_fn f c = Done c')
    ∧ Content.allocateNew c' = Done c'
    ∧ (∀ r col it, Content.cell c r col = Some it →
         Content.cell c' r col = Some it)
    ∧ (Content.cell c 0 0 = None → Content.cell c' 0 0 = Some Item.default)
    ∧ Content.valid_index c' 0 0
    ∧ Content.size c' = Content.size c.
Proof.
  intros Hr. destruct c as [rows cols rptr cptr content]. simpl in Hr. subst rptr.
  unfold Content.add_str, Content.add_fn, Content.allocateNew,
    Content.valid_index; simpl.
  destruct content as [|[|it0 row0] rest]; simpl.
  - eexists. split; [done|]. repeat split; try done.
    intros r col it (_ & _ & cells & Hrow & _)%cell_Some. done.
  - eexists. split; [done|]. repeat split; try done.
    intros r col it (Hr & Hcol & cells & Hrow & Hcell)%cell_Some.
    apply cell_Some. repeat split; [done..|]. simpl in *.
    destruct (Z.to_nat r) as [|k]; simpl in *; [|by exists cells].
    by injection Hrow as <-.
  - eexists. split; [done|]. repeat split; try done.
Qed.

(** X1.  [add] (either overload, through [allocateNew]) on a grid whose
    row cursor is 0, as it is in every grid the class builds: it returns,
    it stores nothing of its argument, it keeps every existing cell and
    the reported size, it makes cell (0, 0) exist (an empty, disabled
    cell when it did not), and a further [add] changes nothing. *)
Theorem add_keeps_one_cell c :
  Content._rptr c = 0 →
  ∃ c',
    Content.allocateNew c = Done c'
    ∧ (∀ v, Content.add_str v c = Done c')
    ∧ (∀ f, Content.add_fn f c = Done c')
    ∧ Content.allocateNew c' = Done c'
    ∧ (∀ r col it, Content.cell c r col = Some it →
         Content.cell c' r col = Some it)
    ∧ (Content.cell c 0 0 = None → Content.cell c' 0 0 = Some Item.default)
    ∧ Content.valid_index c' 0 0
    ∧ Content.size c' = Content.size c.
Proof. exact (allocateNew_run c). Qed.

Lemma replace_with_run set r col c cells it :
  0 ≤ r → 0 ≤ col →
  Content._content c !! Z.to_nat r = Some cells →
  cells !! Z.to_nat col = Some it →
  Content.replace_with set r col c
  = Done (Content.with_content c
            (<[Z.to_nat r := <[Z.to_nat col := set it]> cells]>
               (Content._content c))).
Proof.
  intros Hr Hc E1 E2. unfold Content.replace_with.
  rewrite (proj2 (vec_at_Done _ r cells)) by done. simpl.
  by rewrite (proj2 (vec_at_Done _ col it)) by done.
Qed.

(** X2.  Two [replace] calls compose as assignments do: at two different
    valid indices they commute; at the same valid index the second
    assignment is applied to the result of the first, so that two string
    values, or two producers, leave the grid as the last one alone
    does. *)
Theorem replace_composes c r1 col1 r2 col2 :
  Content.valid_index c r1 col1 →
  Content.valid_index c r2 col2 →
  ((r1, col1) ≠ (r2, col2) →
   ∀ set1 set2,
     Content.replace_with set1 r1 col1 c ≫= Content.replace_with set2 r2 col2
     = Content.replace_with set2 r2 col2 c ≫= Content.replace_with set1 r1 col1)
  ∧ (∀ set1 set2,
       Content.replace_with set1 r1 col1 c ≫= Content.replace_with set2 r1 col1
       = Content.replace_with (set2 ∘ set1) r1 col1 c)
  ∧ (∀ v1 v2,
       Content.replace_str r1 col1 v1 c ≫= Content.replace_str r1 col1 v2
       = Content.replace_str r1 col1 v2 c)
  ∧ (∀ f1 f2,
       Content.replace_fn r1 col1 f1 c ≫= Content.replace_fn r1 col1 f2
       = Content.replace_fn r1 col1 f2 c).
Proof.
  intros [it1 (Hr1 & Hc1 & cells1 & E1 & F1)%cell_Some]
         [it2 (Hr2 & Hc2 & cells2 & E2 & F2)%cell_Some].
  assert (Hl1 := lookup_lt_Some _ _ _ E1).
  assert (Hl2 := lookup_lt_Some _ _ _ E2).
  assert (Hk1 := lookup_lt_Some _ _ _ F1).
  assert (Hk2 := lookup_lt_Some _ _ _ F2).
  assert (Hsame : ∀ set1 set2,
    Content.replace_with set1 r1 col1 c ≫= Content.replace_with set2 r1 col1
    = Content.replace_with (set2 ∘ set1) r1 col1 c).
  { intros set1 set2.
    rewrite (replace_with_run set1 r1 col1 c cells1 it1) by done.
    rewrite (replace_with_run (set2 ∘ set1) r1 col1 c cells1 it1) by done.
    simpl.
    rewrite (replace_with_run set2 r1 col1 _
               (<[Z.to_nat col1 := set1 it1]> cells1) (set1 it1)); simpl;
      [|done|done|by apply list_lookup_insert_eq
       |by apply list_lookup_insert_eq].
    by rewrite !list_insert_insert_eq. }
  split; [|split; [exact Hsame|split]].
  - intros Hne set1 set2.
    rewrite (replace_with_run set1 r1 col1 c cells1 it1) by done.
    rewrite (replace_with_run set2 r2 col2 c cells2 it2) by done.
    simpl.
    destruct (decide (Z.to_nat r1 = Z.to_nat r2)) as [Er|Er].
    + assert (cells2 = cells1) as -> by congruence.
      assert (Z.to_nat col1 ≠ Z.to_nat col2) as Ec.
      { intros Ec. apply Hne. f_equal; lia. }
      rewrite (replace_with_run set2 r2 col2 _
                 (<[Z.to_nat col1 := set1 it1]> cells1) it2); simpl;
        [|done|done|rewrite <- Er; by apply list_lookup_insert_eq
         |by rewrite list_lookup_insert_ne].
      rewrite (replace_with_run set1 r1 col1 _
                 (<[Z.to_nat col2 := set2 it2]> cells1) it1); simpl;
        [|done|done|rewrite Er; by apply list_lookup_insert_eq
         |by rewrite list_lookup_insert_ne].
      rewrite Er, !list_insert_insert_eq.
      by rewrite (list_insert_insert_ne cells1 (Z.to_nat col2) (Z.to_nat col1)).
    + rewrite (replace_with_run set2 r2 col2 _ cells2 it2); simpl;
        [|done|done|by rewrite list_lookup_insert_ne|done].
      rewrite (replace_with_run set1 r1 col1 _ cells1 it1); simpl;
        [|done|done|by rewrite list_lookup_insert_ne|done].
      unfold Content.with_content; simpl.
      by rewrite (list_insert_insert_ne _ (Z.to_nat r2) (Z.to_nat r1)).
  - intros v1 v2. unfold Content.replace_str. rewrite Hsame.
    rewrite (replace_with_run _ r1 col1 c cells1 it1) by done.
    by rewrite (replace_with_run _ r1 col1 c cells1 it1) by done.
  - intros f1 f2. unfold Content.replace_fn. rewrite Hsame.
    rewrite (replace_with_run _ r1 col1 c cells1 it1) by done.
    by rewrite (replace_with_run _ r1 col1 c cells1 it1) by done.
Qed.
End MoreContent.

Lemma add_keeps_one_cell_witness :
  ∃ c' : Content.t unit,
    Content.add_str "holi" Content.default = Done c'
    ∧ Content.add_str "more" c' = Done c'
    ∧ Content.cell c' 0 0 = Some Item.default.
Proof.
  destruct (add_keeps_one_cell (Env := unit) Content.default eq_refl)
    as (c' & Hrun & Hstr & _ & Hagain & _ & Hnew & _).
  exists c'. split; [exact (Hstr "holi")|]. split; [exact Hagain|].
  exact (Hnew eq_refl).
Defined.

Lemma replace_composes_witness :
  Content.replace_str 0 0 "x" grid3 ≫= Content.replace_str 0 2 "y"
  = Content.replace_str 0 2 "y" grid3 ≫= Content.replace_str 0 0 "x"
  ∧ Content.replace_str 0 1 "x" grid3 ≫= Content.replace_str 0 1 "y"
    = Content.replace_str 0 1 "y" grid3.
Proof.
  assert (H0 : Content.valid_index grid3 0 0) by (eexists; reflexivity).
  assert (H1 : Content.valid_index grid3 0 1) by (eexists; reflexivity).
  assert (H2 : Content.valid_index grid3 0 2) by (eexists; reflexivity).
  split.
  - apply (proj1 (replace_composes grid3 0 0 0 2 H0 H2)). discriminate.
  - exact (proj1 (proj2 (proj2 (replace_composes grid3 0 1 0 1 H1 H1))) "x" "y").
Defined.

(** X3.  [print] centres its text: an enabled cell whose text fits the
    width is written once, on the row it is given, at a column [x] such
    that the margin left of the text is the margin right of it or one
    less; the [col] argument plays no role. *)
Theorem print_centres {Env W} (env : Env) (win : W) (row col width : Z)
    (i : Item.t Env) (v : string) :
  Item.enabled i = true →
  Item.value env i = Done v →
  size v ≤ width ≤ INT_MAX →
  ∃ x,
    (∀ col', Item.print env win row col' width i
             = Done (tt, [c_mvwprintw win row x v]))
    ∧ 0 ≤ x
    ∧ x ≤ width - size v - x ≤ x + 1.
Proof.
  intros Hen Hv [Hfit Hmax].
  assert (Hpos := size_nonneg v).
  assert (Hint : to_int (size v) = size v).
  { unfold to_int, INT_MAX in *. change (2 ^ 31) with 2147483648 in *.
    change (2 ^ 32) with 4294967296. Z.div_mod_to_equations. lia. }
  exists (Z.quot (width - size v) 2). split; [|split].
  - intros col'. rewrite <- Hint at 1.
    apply print_enabled; [done..|].
    rewrite Hint. unfold in_int, INT_MIN, INT_MAX in *.
    change (2 ^ 31) with 2147483648 in *. lia.
  - apply Z.quot_pos; lia.
  - rewrite Z.quot_div_nonneg by lia. Z.div_mod_to_equations. lia.
Qed.

Lemma print_centres_witness :
  ∃ x, Item.print tt tt 1 0 10 (Item.of_str "holi")
       = Done (tt, [c_mvwprintw tt 1 x "holi"])
       ∧ x ≤ 10 - size "holi" - x ≤ x + 1.
Proof.
  assert (Hw : size "holi" ≤ 10 ≤ INT_MAX) by (by vm_compute).
  destruct (print_centres tt tt 1 0 10 (Item.of_str "holi") "holi"
              eq_refl eq_refl Hw) as (x & Hrun & _ & Hx).
  exists x. split; [exact (Hrun 0)|exact Hx].
Defined.

Section MoreWindow.
Context {Env WINDOW : Type} `{!Ncurses Env WINDOW}.
Implicit Types (w : Window.t Env WINDOW) (s : WINDOW) (env : Env).

(** X4.  What [draw] issues on a window whose surface exists, in order:
    the box exactly when the window is bordered; the title on row 0, in
    reverse video exactly when the window is selected, exactly when the
    window is titled; one [wnoutrefresh].  It issues nothing for the
    content grid, whatever the grid holds, and no [doupdate]. *)
Theorem draw_trace w s :
  Window._win w = Some s →
  ∃ startx,
    Window.draw w
    = Done (tt,
            (if Window._boxed w then [c_box s] else [])
            ++ (if Window._titled w
                then highlighted (Window._selected w) s
                       (c_mvwprintw s 0 startx (" " +:+ Window._name w +:+ " "))
                else [])
            ++ [c_wnoutrefresh (Some s)]).
Proof.
  intros Hs.
  unfold Window.draw, Window.drawBox, Window.putTitle, Window.getCoords,
    Window.refresh, Content.print, highlighted.
  rewrite (win_Some w s Hs).
  destruct (Window._boxed w), (Window._titled w), (Window._selected w);
    repeat case_decide; cbn; eexists; try reflexivity.
  all: exact 0.
Qed.

Lemma resize_run env w f s d0 d1 d2 d3 :
  Window._getDims w = Some f → Window._win w = Some s →
  vec_at (f env) 0 = Done d0 → vec_at (f env) 1 = Done d1 →
  vec_at (f env) 2 = Done d2 → vec_at (f env) 3 = Done d3 →
  ∃ tr, Window.resize env w
        = Done (Window.set_win (Some (wresize (mvwin s d2 d3) d0 d1)) w, tr).
Proof.
  intros Hf Hs H0 H1 H2 H3.
  unfold Window.resize, Window.getDims. rewrite Hf, (win_Some w s Hs). simpl.
  rewrite H0, H1, H2, H3. simpl.
  set (w' := Window.set_win _ _).
  destruct (draw_Done w' (wresize (mvwin s d2 d3) d0 d1) eq_refl) as [tr ->].
  simpl. by eexists.
Qed.

(** A resizable window is resized: nothing but its surface changes. *)
Lemma resize_resizable env w :
  resizable env w →
  ∃ w' tr, Window.resize env w = Done (w', tr)
           ∧ same_but_win w w' ∧ (∀ env', resizable env' w → resizable env' w').
Proof.
  intros (f & s & Hf & (d0 & d1 & d2 & d3 & H0 & H1 & H2 & H3)%four_dims & Hs).
  destruct (resize_run env w f s d0 d1 d2 d3) as [tr Hrun]; [done..|].
  eexists _, tr. split; [done|]. split; [done|].
  intros env' (f' & s' & Hf' & Hlen & _). by exists f', (wresize (mvwin s d2 d3) d0 d1).
Qed.

(** X5.  [resize], case by case.  Without a geometry provider it throws
    [bad_function_call] before it touches the surface.  With a provider,
    it is undefined when the surface was never created, and when the
    provider yields fewer than four values (the unchecked [d[i]]).
    Otherwise it returns: its first call is [wclear] on the old surface,
    and nothing of the window changes but the surface, which is the old
    one moved to [(d[2], d[3])] and then resized to [(d[0], d[1])];
    values after the fourth are not read. *)
Theorem resize_outcomes env w :
  (Window._getDims w = None →
   Window.resize env w = Thrown bad_function_call)
  ∧ (∀ f, Window._getDims w = Some f → Window._win w = None →
       Window.resize env w = Undefined)
  ∧ (∀ f s, Window._getDims w = Some f → Window._win w = Some s →
       (length (f env) < 4)%nat →
       Window.resize env w = Undefined)
  ∧ (∀ f s d0 d1 d2 d3 rest,
       Window._getDims w = Some f → Window._win w = Some s →
       f env = d0 :: d1 :: d2 :: d3 :: rest →
       ∃ tr, Window.resize env w
             = Done (Window.set_win (Some (wresize (mvwin s d2 d3) d0 d1)) w,
                     c_wclear s :: tr)).
Proof.
  split; [|split; [|split]].
  - intros Hf. unfold Window.resize, Window.getDims. by rewrite Hf.
  - intros f Hf Hs. unfold Window.resize, Window.getDims.
    by rewrite Hf, (win_None w Hs).
  - intros f s Hf Hs Hlen. unfold Window.resize, Window.getDims.
    rewrite Hf, (win_Some w s Hs). simpl.
    destruct (f env) as [|d0 [|d1 [|d2 [|d3 rest]]]]; simpl in *; try done.
    lia.
  - intros f s d0 d1 d2 d3 rest Hf Hs Hd.
    unfold Window.resize, Window.getDims.
    assert (vec_at (f env) 0 = Done d0) as H0
      by (rewrite Hd; apply vec_at_Done; (split; [lia|done])).
    assert (vec_at (f env) 1 = Done d1) as H1
      by (rewrite Hd; apply vec_at_Done; (split; [lia|done])).
    assert (vec_at (f env) 2 = Done d2) as H2
      by (rewrite Hd; apply vec_at_Done; (split; [lia|done])).
    assert (vec_at (f env) 3 = Done d3) as H3
      by (rewrite Hd; apply vec_at_Done; (split; [lia|done])).
    rewrite Hf, (win_Some w s Hs). simpl. rewrite H0, H1, H2, H3. simpl.
    set (w' := Window.set_win _ _).
    destruct (draw_Done w' (wresize (mvwin s d2 d3) d0 d1) eq_refl) as [tr ->].
    simpl. by eexists.
Qed.

(** X6.  [getCellWidth(n)], for [n] columns ([n] > 0) on a surface at
    least as wide as its border: the cell width and the remainder make up
    the interior width (the width, less 2 when the window is bordered),
    and the remainder is less than [n].  With [n = 0] the division is
    undefined. *)
Theorem getCellWidth_divides w s n :
  Window._win w = Some s →
  0 < n →
  (if Window._boxed w then 2 else 0) ≤ getmaxx s →
  (∃ cell rest,
     Window.getCellWidth n w = Done ([cell; rest], [])
     ∧ cell * n + rest = getmaxx s - (if Window._boxed w then 2 else 0)
     ∧ 0 ≤ rest < n ∧ 0 ≤ cell)
  ∧ Window.getCellWidth 0 w = Undefined.
Proof.
  intros Hs Hn Hw. unfold Window.getCellWidth. rewrite (win_Some w s Hs).
  split.
  - unfold io_bind, io_ret.
    destruct (decide _) as [Hz|Hz]; [unfold INT_MIN in Hz; lia|].
    set (width := if Window._boxed w then getmaxx s - 2 else getmaxx s).
    assert (0 ≤ width) by (unfold width; destruct (Window._boxed w); lia).
    assert (width = getmaxx s - (if Window._boxed w then 2 else 0)) as <-
      by (unfold width; destruct (Window._boxed w); lia).
    eexists _, _. split; [done|].
    pose proof (Z.quot_rem' width n). pose proof (Z.rem_bound_pos width n).
    pose proof (Z.quot_pos width n). lia.
  - unfold io_bind, io_ret.
    destruct (decide _) as [Hz|Hz]; [done|]. destruct Hz. by left.
Qed.

(** X7.  A default-constructed window, as [operator[]] stores it under a
    name that was absent, has no geometry provider: [resize],
    [setOption] and [contentAdd] on it throw [bad_function_call] before
    they touch the surface; marking or unmarking it draws on the
    uninitialised surface handle. *)
Theorem default_window_unusable env (opt : WinOpt) (v : string)
    (f : option (Env → string)) :
  Window.resize env Window.default = Thrown bad_function_call
  ∧ Window.setOption env opt Window.default = Thrown bad_function_call
  ∧ Window.contentAdd_str env v Window.default = Thrown bad_function_call
  ∧ Window.contentAdd_fn env f Window.default = Thrown bad_function_call
  ∧ Window.markSelected Window.default = Undefined
  ∧ Window.unmarkSelected Window.default = Undefined
  ∧ ∀ name (app : App.t Env WINDOW),
      Windows._windows (App.windows app) !! name = None →
      ∃ app', App.window name app = Done (Window.default, app').
Proof.
  repeat split; try done.
  - by destruct opt.
  - intros name app Habsent. unfold App.window, Windows.subscript.
    rewrite Habsent. by eexists.
Qed.
End MoreWindow.

Lemma draw_trace_witness :
  ∃ startx,
    Window.draw (Window.set_selected true stack_window)
    = Done (tt, [c_box (Surface 3 20 0 0);
                 c_wattron (Surface 3 20 0 0) A_REVERSE;
                 c_mvwprintw (Surface 3 20 0 0) 0 startx " Stack ";
                 c_wattroff (Surface 3 20 0 0) A_REVERSE;
                 c_wnoutrefresh (Some (Surface 3 20 0 0))]).
Proof.
  exact (draw_trace (Window.set_selected true stack_window)
           (Surface 3 20 0 0) eq_refl).
Defined.

Lemma plain_window_resizable env name : resizable env (plain_window name).
Proof. eexists _, _. split; [done|]. split; [simpl; lia|done]. Qed.

Lemma resize_outcomes_witness :
  Window.resize term (Window.set_win None (plain_window "Stack")) = Undefined
  ∧ ∃ tr, Window.resize term (plain_window "Stack")
          = Done (plain_window "Stack", c_wclear (Surface 3 20 0 0) :: tr).
Proof.
  destruct (resize_outcomes term (plain_window "Stack"))
    as (_ & _ & _ & Hrun).
  destruct (resize_outcomes term (Window.set_win None (plain_window "Stack")))
    as (_ & Hnone & _).
  split; [exact (Hnone _ eq_refl eq_refl)|].
  exact (Hrun _ (Surface 3 20 0 0) 3 20 0 0 [] eq_refl eq_refl eq_refl).
Defined.

Lemma getCellWidth_divides_witness :
  ∃ cell rest,
    Window.getCellWidth 4 (plain_window "Stack") = Done ([cell; rest], [])
    ∧ cell * 4 + rest = 18.
Proof.
  assert (Hn : 0 < 4) by lia.
  assert (Hw : (if Window._boxed (plain_window "Stack") then 2 else 0)
               ≤ getmaxx (Surface 3 20 0 0)) by (by vm_compute).
  destruct (proj1 (getCellWidth_divides (plain_window "Stack")
                     (Surface 3 20 0 0) 4 eq_refl Hn Hw))
    as (cell & rest & Hrun & Hsum & _).
  by exists cell, rest.
Defined.

Lemma default_window_unusable_witness :
  ∃ app',
    App.window "Vars" (App.mk registry_abc) = Done (Window.default, app')
    ∧ Window.contentAdd_str term "holi" (Window.default (WINDOW := surface))
      = Thrown bad_function_call.
Proof.
  destruct (default_window_unusable (WINDOW := surface) term BOXED "holi" None)
    as (_ & _ & Hadd & _ & _ & _ & Hwin).
  destruct (Hwin "Vars" (App.mk registry_abc)) as [app' Happ];
    [vm_compute; reflexivity|].
  exists app'. split; [exact Happ|exact Hadd].
Defined.

(** ** The registry *)

Section MoreWindows.
Context {Env WINDOW : Type} `{!Ncurses Env WINDOW}.
Implicit Types (w : Window.t Env WINDOW) (ws : Windows.t Env WINDOW).
Implicit Types (env : Env) (name : string).

(** X8.  [notify] ignores every message other than ["resize"],
    ["rotate"] and ["rotate-back"]: the registry is unchanged and nothing
    is drawn. *)
Theorem notify_ignores_other_messages env (message : string) ws :
  message ≠ "resize" → message ≠ "rotate" → message ≠ "rotate-back" →
  Windows.notify env message ws = Done (ws, []).
Proof.
  intros H1 H2 H3. unfold Windows.notify.
  destruct (decide (message = "resize")); [done|]. simpl.
  destruct (decide (message = "rotate")); [done|]. simpl.
  destruct (decide (message = "rotate-back")); done.
Qed.

Lemma notify_resize_unfold env ws :
  Windows.notify env "resize" ws = Windows.resizeAllWindows env ws.
Proof.
  unfold Windows.notify, io_bind, io_ret. simpl.
  destruct (Windows.resizeAllWindows env ws) as [[ws1 t1]| |]; [|done..].
  by rewrite !app_nil_r.
Qed.

Lemma resized_refl w : resized w w.
Proof. by split. Qed.

Lemma resized_trans w1 w2 w3 : resized w1 w2 → resized w2 w3 → resized w1 w3.
Proof.
  unfold resized, same_but_win. intros [E1 R1] [E2 R2].
  split; [congruence|eauto].
Qed.

Lemma windows_related_refl (R : Window.t Env WINDOW → Window.t Env WINDOW → Prop) ws :
  (∀ w, R w w) → windows_related R ws ws.
Proof.
  intros HR name. destruct (Windows._windows ws !! name); by constructor.
Qed.

Lemma windows_related_trans
    (R : Window.t Env WINDOW → Window.t Env WINDOW → Prop) ws1 ws2 ws3 :
  (∀ w1 w2 w3, R w1 w2 → R w2 w3 → R w1 w3) →
  windows_related R ws1 ws2 → windows_related R ws2 ws3 →
  windows_related R ws1 ws3.
Proof.
  intros HR H12 H23 name. specialize (H12 name). specialize (H23 name).
  destruct H12 as [w1 w2 ?|]; inversion H23; subst; constructor. eauto.
Qed.

Lemma windows_related_insert
    (R : Window.t Env WINDOW → Window.t Env WINDOW → Prop) ws name w w' :
  (∀ w, R w w) →
  Windows._windows ws !! name = Some w → R w w' →
  windows_related R ws
    (Windows.set_windows (<[name := w']> (Windows._windows ws)) ws).
Proof.
  intros HR Hw Hww' other. simpl.
  destruct (decide (name = other)) as [<-|Hne].
  - rewrite lookup_insert_eq, Hw. by constructor.
  - rewrite lookup_insert_ne by done.
    destruct (Windows._windows ws !! other); by constructor.
Qed.

(** The loop of [resizeAllWindows], over any sequence of stored names. *)
Lemma resize_each env (l : list (string * Window.t Env WINDOW)) ws :
  (∀ kw, kw ∈ l → is_Some (Windows._windows ws !! kw.1)) →
  (∀ name w, Windows._windows ws !! name = Some w → resizable env w) →
  ∃ ws' tr,
    for_each (λ kw ws, Windows.on_window (Window.resize env) kw.1 ws) l ws
    = Done (ws', tr)
    ∧ Windows._windowsOrder ws' = Windows._windowsOrder ws
    ∧ windows_related resized ws ws'.
Proof.
  revert ws. induction l as [|kw l IH]; intros ws Hin Hres.
  - exists ws, []. repeat split; [done..|].
    apply windows_related_refl, resized_refl.
  - destruct (Hin kw ltac:(left)) as [w Hw].
    destruct (resize_resizable env w (Hres _ _ Hw)) as (w' & tr1 & Hrun & Hrel).
    simpl. rewrite (on_window_Done _ _ _ _ _ _ Hw Hrun).
    set (ws1 := Windows.set_windows _ ws).
    assert (Hrel1 : windows_related resized ws ws1)
      by (apply (windows_related_insert resized ws kw.1 w w');
          [apply resized_refl|done|done]).
    destruct (IH ws1) as (ws' & tr2 & Hrun2 & Hord & Hrel2).
    { intros kw' Hkw'. destruct (Hin kw' ltac:(by right)) as [w0 Hw0].
      specialize (Hrel1 kw'.1). rewrite Hw0 in Hrel1.
      inversion Hrel1; by eexists. }
    { intros name w1 Hw1. specialize (Hrel1 name). rewrite Hw1 in Hrel1.
      inversion Hrel1 as [w0 ? [_ Hr] E|]; subst.
      apply Hr, (Hres name). done. }
    unfold io_bind. rewrite Hrun2. exists ws', (tr1 ++ tr2).
    split; [done|]. split; [done|].
    eapply windows_related_trans; [apply resized_trans|done..].
Qed.

(** X9.  A ["resize"] notification on a registry in which every stored
    window can be resized (as every window stored by [addWindow] can)
    returns; it keeps the focus order and the stored names, and changes
    nothing of any window but its surface: names, decoration, content and
    selection are as before, and every window can still be resized. *)
Theorem notify_resize_keeps_windows env ws :
  (∀ name w, Windows._windows ws !! name = Some w → resizable env w) →
  ∃ ws' tr,
    Windows.notify env "resize" ws = Done (ws', tr)
    ∧ Windows._windowsOrder ws' = Windows._windowsOrder ws
    ∧ windows_related same_but_win ws ws'
    ∧ (∀ name, Windows.selected ws' name = Windows.selected ws name)
    ∧ (∀ name w', Windows._windows ws' !! name = Some w' → resizable env w').
Proof.
  intros Hres. rewrite notify_resize_unfold. unfold Windows.resizeAllWindows.
  destruct (resize_each env (map_to_list (Windows._windows ws)) ws)
    as (ws' & tr & Hrun & Hord & Hrel); [|done|].
  { intros [k w] Hkw%elem_of_map_to_list. by exists w. }
  simpl. rewrite Hrun. exists ws', (c_wnoutrefresh None :: tr).
  split; [done|]. split; [done|]. split; [|split].
  - intros name. specialize (Hrel name).
    destruct Hrel as [w w' [Hsame _]|]; by constructor.
  - intros name. unfold Windows.selected. specialize (Hrel name).
    destruct Hrel as [w w' [Hsame _]|]; [simpl|done].
    apply (f_equal Window._selected) in Hsame. simpl in Hsame.
    by rewrite Hsame.
  - intros name w' Hw'. specialize (Hrel name). rewrite Hw' in Hrel.
    inversion Hrel as [w ? [_ Hr] E|]; subst.
    apply Hr, (Hres name). done.
Qed.

(** The loop of [resizeAllWindows] stops at the first window without a
    geometry provider. *)
Lemma resize_each_throws env (l : list (string * Window.t Env WINDOW)) ws :
  (∀ kw, kw ∈ l → is_Some (Windows._windows ws !! kw.1)) →
  (∀ name w, Windows._windows ws !! name = Some w →
     resizable env w ∨ Window._getDims w = None) →
  (∃ kw w, kw ∈ l ∧ Windows._windows ws !! kw.1 = Some w
           ∧ Window._getDims w = None) →
  for_each (λ kw ws, Windows.on_window (Window.resize env) kw.1 ws) l ws
  = Thrown bad_function_call.
Proof.
  revert ws. induction l as [|kw l IH]; intros ws Hin Hres (kw0 & w0 & Hkw0 & Hw0 & Hnone).
  { by apply elem_of_nil in Hkw0. }
  destruct (Hin kw ltac:(left)) as [w Hw].
  destruct (Hres _ _ Hw) as [Hr|Hempty].
  - destruct (resize_resizable env w Hr) as (w' & tr1 & Hrun & Hsame & Hkeep).
    simpl. rewrite (on_window_Done _ _ _ _ _ _ Hw Hrun).
    set (ws1 := Windows.set_windows _ ws).
    assert (Hlook : ∀ name, name ≠ kw.1 →
              Windows._windows ws1 !! name = Windows._windows ws !! name).
    { intros name Hne. unfold ws1; simpl. by rewrite lookup_insert_ne. }
    assert (Hk : Windows._windows ws1 !! kw.1 = Some w')
      by (unfold ws1; simpl; apply lookup_insert_eq).
    unfold io_bind. rewrite (IH ws1); [done|..].
    + intros kw' Hkw'. destruct (decide (kw'.1 = kw.1)) as [->|Hne].
      * by eexists.
      * rewrite Hlook by done. apply Hin. by right.
    + intros name w1 Hw1. destruct (decide (name = kw.1)) as [->|Hne].
      * left. rewrite Hk in Hw1. injection Hw1 as <-. by apply Hkeep.
      * rewrite Hlook in Hw1 by done. by apply (Hres name).
    + assert (kw0.1 ≠ kw.1) as Hne.
      { intros E. rewrite E, Hw in Hw0. injection Hw0 as <-.
        destruct Hr as (f & s & Hf & _). congruence. }
      exists kw0, w0. split; [|split; [by rewrite Hlook|done]].
      apply elem_of_cons in Hkw0 as [->|?]; done.
  - simpl. unfold Windows.on_window, Windows.subscript. rewrite Hw.
    unfold Window.resize, Window.getDims. by rewrite Hempty.
Qed.

(** X10.  A ["resize"] notification throws [bad_function_call] as soon
    as one stored window has no geometry provider while the others can be
    resized: so after [window(name)] has been called with a name that
    was absent, which stores a default-constructed window. *)
Theorem notify_resize_after_unknown_lookup env ws :
  (∀ name w, Windows._windows ws !! name = Some w →
     resizable env w ∨ Window._getDims w = None) →
  ((∃ name w, Windows._windows ws !! name = Some w ∧ Window._getDims w = None) →
   Windows.notify env "resize" ws = Thrown bad_function_call)
  ∧ ∀ name,
      (∀ name w, Windows._windows ws !! name = Some w → resizable env w) →
      Windows._windows ws !! name = None →
      Windows.notify env "resize" (Windows.subscript name ws).2
      = Thrown bad_function_call.
Proof.
  assert (Hgen : ∀ ws0,
    (∀ name w, Windows._windows ws0 !! name = Some w →
       resizable env w ∨ Window._getDims w = None) →
    (∃ name w, Windows._windows ws0 !! name = Some w ∧ Window._getDims w = None) →
    Windows.notify env "resize" ws0 = Thrown bad_function_call).
  { intros ws0 Hres (name & w & Hw & Hnone).
    rewrite notify_resize_unfold. unfold Windows.resizeAllWindows.
    simpl. rewrite (resize_each_throws env _ ws0); [done| |done|].
    - intros [k w0] Hkw%elem_of_map_to_list. by exists w0.
    - exists (name, w), w. split; [by apply elem_of_map_to_list|done]. }
  intros Hres. split; [by apply Hgen|].
  intros name Hall Habsent. apply Hgen.
  - unfold Windows.subscript. rewrite Habsent. simpl.
    intros other w Hw. destruct (decide (name = other)) as [<-|Hne].
    + rewrite lookup_insert_eq in Hw. injection Hw as <-. by right.
    + rewrite lookup_insert_ne in Hw by done. left. by apply (Hall other).
  - exists name, Window.default. unfold Windows.subscript. rewrite Habsent.
    simpl. by rewrite lookup_insert_eq.
Qed.
End MoreWindows.

(** ** Rotations and the state of the registry *)

Lemma iter_rotate_left {A} (k : nat) (l : list A) :
  (k ≤ length l)%nat → Nat.iter k rotate_left l = drop k l ++ take k l.
Proof.
  induction k as [|k IH]; intros Hk; simpl.
  - by rewrite take_0, app_nil_r.
  - rewrite IH by lia.
    destruct (lookup_lt_is_Some_2 l k ltac:(lia)) as [x Hx].
    rewrite (drop_S l x k Hx), (take_S_r l k x Hx). simpl.
    by rewrite <- app_assoc.
Qed.

Lemma iter_rotate_left_length {A} (l : list A) :
  Nat.iter (length l) rotate_left l = l.
Proof. rewrite iter_rotate_left by done. by rewrite drop_all, take_ge. Qed.

Lemma iter_rotate_right_left {A} (k : nat) (l : list A) :
  Nat.iter k rotate_right (Nat.iter k rotate_left l) = l.
Proof.
  induction k as [|k IH]; [done|].
  rewrite Nat.iter_succ_r. simpl. by rewrite rotate_right_left.
Qed.

Lemma iter_rotate_right_length {A} (l : list A) :
  Nat.iter (length l) rotate_right l = l.
Proof.
  transitivity (Nat.iter (length l) rotate_right
                  (Nat.iter (length l) rotate_left l)).
  - by rewrite iter_rotate_left_length.
  - apply iter_rotate_right_left.
Qed.

Section MoreFocus.
Context {Env WINDOW : Type} `{!Ncurses Env WINDOW}.
Implicit Types (w : Window.t Env WINDOW) (ws : Windows.t Env WINDOW).
Implicit Types (env : Env) (name : string).

Lemma same_but_selected_marking order name w :
  same_but_selected w (marking order name w).
Proof.
  unfold same_but_selected, marking. destruct order; [done|].
  by repeat case_decide.
Qed.

Lemma same_but_selected_trans w1 w2 w3 :
  same_but_selected w1 w2 → same_but_selected w2 w3 → same_but_selected w1 w3.
Proof. unfold same_but_selected. congruence. Qed.

Lemma related_marking ws ws' order :
  (∀ name, Windows._windows ws' !! name
           = marking order name <$> Windows._windows ws !! name) →
  windows_related same_but_selected ws ws'.
Proof.
  intros Hlook name. rewrite Hlook.
  destruct (Windows._windows ws !! name); constructor.
  apply same_but_selected_marking.
Qed.

Lemma head_selected_nonempty ws :
  head_selected ws → Windows._windowsOrder ws ≠ [].
Proof. intros (head & others & w & -> & _). done. Qed.

(** Two registries with the same focus order, each with exactly its head
    selected, whose windows differ at most in the selected flag, are
    equal. *)
Lemma registry_eq ws ws' :
  Windows._windowsOrder ws' = Windows._windowsOrder ws →
  head_selected ws → head_selected ws' →
  windows_related same_but_selected ws ws' →
  ws' = ws.
Proof.
  intros Hord (h & o & w0 & Ho & _ & Hsel) (h' & o' & w0' & Ho' & _ & Hsel') Hrel.
  assert (h' = h) as -> by congruence.
  destruct ws as [m order], ws' as [m' order']; simpl in *. subst order'.
  f_equal. apply map_eq. intros name. specialize (Hrel name). simpl in Hrel.
  destruct (m !! name) as [w|] eqn:Hw, (m' !! name) as [w'|] eqn:Hw';
    inversion Hrel as [? ? Hsame|]; subst; [|done]. f_equal.
  assert (Window._selected w' = Window._selected w) as Hflag.
  { specialize (Hsel name w Hw). specialize (Hsel' name w' Hw').
    destruct (Window._selected w'), (Window._selected w); try done.
    - symmetry. apply Hsel, Hsel'. done.
    - apply Hsel', Hsel. done. }
  unfold same_but_selected in Hsame.
  destruct w, w'; simpl in *. by simplify_eq.
Qed.

Lemma rotate_step_related env ws :
  focus_ready ws → Windows._windowsOrder ws ≠ [] →
  ∃ ws' tr,
    Windows.notify env "rotate" ws = Done (ws', tr)
    ∧ Windows._windowsOrder ws' = rotate_right (Windows._windowsOrder ws)
    ∧ focus_ready ws' ∧ head_selected ws'
    ∧ windows_related same_but_selected ws ws'.
Proof.
  intros Hready Hne.
  destruct (notify_rotate_Done env ws Hne (proj1 (proj2 Hready)))
    as (ws' & tr & Hrun & Hord & Hlook).
  assert (rotate_right (Windows._windowsOrder ws) ≠ []) as Hne'
    by (by intros ?%rotate_right_nil_inv).
  destruct (marking_establishes ws ws' _ Hready Hne'
              (NoDup_rotate_right _ (proj1 Hready))
              (elem_of_rotate_right _) Hord Hlook) as [? ?].
  exists ws', tr. do 4 (split; [done|]). by eapply related_marking.
Qed.

Lemma rotate_back_step_related env ws :
  focus_ready ws → Windows._windowsOrder ws ≠ [] →
  ∃ ws' tr,
    Windows.notify env "rotate-back" ws = Done (ws', tr)
    ∧ Windows._windowsOrder ws' = rotate_left (Windows._windowsOrder ws)
    ∧ focus_ready ws' ∧ head_selected ws'
    ∧ windows_related same_but_selected ws ws'.
Proof.
  intros Hready Hne.
  destruct (notify_rotate_back_Done env ws Hne (proj1 (proj2 Hready)))
    as (ws' & tr & Hrun & Hord & Hlook).
  assert (rotate_left (Windows._windowsOrder ws) ≠ []) as Hne'
    by (by intros ?%rotate_left_nil_inv).
  destruct (marking_establishes ws ws' _ Hready Hne'
              (NoDup_rotate_left _ (proj1 Hready))
              (elem_of_rotate_left _) Hord Hlook) as [? ?].
  exists ws', tr. do 4 (split; [done|]). by eapply related_marking.
Qed.

(** X11.  On a registry whose focus order has no duplicates and names
    drawable windows, with exactly its head selected, ["rotate"]
    followed by ["rotate-back"], and ["rotate-back"] followed by
    ["rotate"], both return and restore the whole registry: focus order,
    selection and every window. *)
Theorem rotate_and_back_restore env ws :
  focus_ready ws → head_selected ws →
  (∃ ws1 tr1 tr2,
     Windows.notify env "rotate" ws = Done (ws1, tr1)
     ∧ Windows.notify env "rotate-back" ws1 = Done (ws, tr2))
  ∧ (∃ ws1 tr1 tr2,
       Windows.notify env "rotate-back" ws = Done (ws1, tr1)
       ∧ Windows.notify env "rotate" ws1 = Done (ws, tr2)).
Proof.
  intros Hready Hsel. assert (Hne := head_selected_nonempty ws Hsel). split.
  - destruct (rotate_step_related env ws Hready Hne)
      as (ws1 & tr1 & Hrun1 & Hord1 & Hready1 & Hsel1 & Hrel1).
    destruct (rotate_back_step_related env ws1 Hready1
                (head_selected_nonempty ws1 Hsel1))
      as (ws2 & tr2 & Hrun2 & Hord2 & Hready2 & Hsel2 & Hrel2).
    exists ws1, tr1, tr2. split; [done|].
    rewrite Hrun2. do 2 f_equal. apply registry_eq; [|done..|].
    + by rewrite Hord2, Hord1, rotate_left_right.
    + eapply windows_related_trans; [apply same_but_selected_trans|done..].
  - destruct (rotate_back_step_related env ws Hready Hne)
      as (ws1 & tr1 & Hrun1 & Hord1 & Hready1 & Hsel1 & Hrel1).
    destruct (rotate_step_related env ws1 Hready1
                (head_selected_nonempty ws1 Hsel1))
      as (ws2 & tr2 & Hrun2 & Hord2 & Hready2 & Hsel2 & Hrel2).
    exists ws1, tr1, tr2. split; [done|].
    rewrite Hrun2. do 2 f_equal. apply registry_eq; [|done..|].
    + by rewrite Hord2, Hord1, rotate_right_left.
    + eapply windows_related_trans; [apply same_but_selected_trans|done..].
Qed.

Lemma rotations_iter env (message : string) (turn : list string → list string)
    (k : nat) ws :
  (∀ ws, focus_ready ws → Windows._windowsOrder ws ≠ [] →
     ∃ ws' tr,
       Windows.notify env message ws = Done (ws', tr)
       ∧ Windows._windowsOrder ws' = turn (Windows._windowsOrder ws)
       ∧ focus_ready ws' ∧ head_selected ws'
       ∧ windows_related same_but_selected ws ws') →
  focus_ready ws → head_selected ws →
  ∃ ws' tr,
    for_each (Windows.notify env) (replicate k message) ws = Done (ws', tr)
    ∧ Windows._windowsOrder ws' = Nat.iter k turn (Windows._windowsOrder ws)
    ∧ focus_ready ws' ∧ head_selected ws'
    ∧ windows_related same_but_selected ws ws'.
Proof.
  intros Hstep. revert ws. induction k as [|k IH]; intros ws Hready Hsel.
  - exists ws, []. do 4 (split; [done|]). by apply windows_related_refl.
  - destruct (Hstep ws Hready (head_selected_nonempty ws Hsel))
      as (ws1 & tr1 & Hrun1 & Hord1 & Hready1 & Hsel1 & Hrel1).
    destruct (IH ws1 Hready1 Hsel1)
      as (ws' & tr2 & Hrun2 & Hord2 & Hready2 & Hsel2 & Hrel2).
    exists ws', (tr1 ++ tr2). split; [|split; [|split; [|split]]]; try done.
    + simpl. rewrite Hrun1. unfold io_bind. by rewrite Hrun2.
    + by rewrite Hord2, Hord1, Nat.iter_succ_r.
    + eapply windows_related_trans; [apply same_but_selected_trans|done..].
Qed.

(** X12.  On such a registry, as many ["rotate"] notifications as the
    focus order has names, or as many ["rotate-back"] notifications,
    return and restore the whole registry: the focus cycles. *)
Theorem full_cycle_restores env ws :
  focus_ready ws → head_selected ws →
  (∃ tr, for_each (Windows.notify env)
           (replicate (length (Windows._windowsOrder ws)) "rotate") ws
         = Done (ws, tr))
  ∧ (∃ tr, for_each (Windows.notify env)
             (replicate (length (Windows._windowsOrder ws)) "rotate-back") ws
           = Done (ws, tr)).
Proof.
  intros Hready Hsel. split.
  - destruct (rotations_iter env "rotate" rotate_right
                (length (Windows._windowsOrder ws)) ws
                (rotate_step_related env) Hready Hsel)
      as (ws' & tr & Hrun & Hord & _ & Hsel' & Hrel).
    exists tr. rewrite Hrun. do 2 f_equal. apply registry_eq; [|done..].
    by rewrite Hord, iter_rotate_right_length.
  - destruct (rotations_iter env "rotate-back" rotate_left
                (length (Windows._windowsOrder ws)) ws
                (rotate_back_step_related env) Hready Hsel)
      as (ws' & tr & Hrun & Hord & _ & Hsel' & Hrel).
    exists tr. rewrite Hrun. do 2 f_equal. apply registry_eq; [|done..].
    by rewrite Hord, iter_rotate_left_length.
Qed.
End MoreFocus.

Lemma notify_ignores_other_messages_witness :
  Windows.notify term "redraw" registry_abc = Done (registry_abc, []).
Proof.
  apply notify_ignores_other_messages; discriminate.
Defined.

Lemma registry_abc_resizable env name w :
  Windows._windows registry_abc !! name = Some w → resizable env w.
Proof.
  unfold registry_abc, registry. simpl. intros Hw.
  repeat (apply lookup_insert_Some in Hw as [[_ <-]|[_ Hw]];
          [apply plain_window_resizable|]).
  done.
Qed.

Lemma notify_resize_keeps_windows_witness :
  ∃ ws' tr,
    Windows.notify term "resize" registry_abc = Done (ws', tr)
    ∧ Windows._windowsOrder ws' = ["A"; "B"; "C"]
    ∧ Windows.selected ws' "A" = Some false.
Proof.
  destruct (notify_resize_keeps_windows term registry_abc
              (registry_abc_resizable term))
    as (ws' & tr & Hrun & Hord & _ & Hsel & _).
  exists ws', tr. split; [exact Hrun|]. split; [exact Hord|].
  rewrite (Hsel "A"). vm_compute. reflexivity.
Defined.

Lemma notify_resize_after_unknown_lookup_witness :
  Windows.notify term "resize" (Windows.subscript "Vars" registry_abc).2
  = Thrown bad_function_call.
Proof.
  apply (notify_resize_after_unknown_lookup term registry_abc).
  - intros name w Hw. left. by apply (registry_abc_resizable term name).
  - exact (registry_abc_resizable term).
  - vm_compute. reflexivity.
Defined.

Lemma registry_abc_focused_ready : focus_ready registry_abc_focused.
Proof.
  split; [|split].
  - simpl. repeat (apply NoDup_cons; split;
      [intros Hin; repeat (apply elem_of_cons in Hin as [Hin|Hin]; [done|]);
       by apply elem_of_nil in Hin|]).
    apply NoDup_nil_2.
  - intros name Hin. apply drawable_lookup. simpl in Hin.
    repeat (apply elem_of_cons in Hin as [->|Hin]);
      [eexists _, _; split; [vm_compute; reflexivity|reflexivity]..|].
    by apply elem_of_nil in Hin.
  - intros name w Hw Hnin. simpl in Hw, Hnin.
    apply lookup_insert_Some in Hw as [[<- _]|[_ Hw]].
    { destruct Hnin. by left. }
    unfold registry_abc, registry in Hw. simpl in Hw.
    repeat (apply lookup_insert_Some in Hw as [[_ <-]|[_ Hw]]; [done|]).
    done.
Qed.

Lemma registry_abc_focused_head : head_selected registry_abc_focused.
Proof.
  exists "A", ["B"; "C"], (Window.set_selected true (plain_window "A")).
  split; [done|]. split; [done|].
  intros name w Hw. simpl in Hw.
  apply lookup_insert_Some in Hw as [[<- <-]|[Hne Hw]]; [done|].
  unfold registry_abc, registry in Hw. simpl in Hw.
  repeat (apply lookup_insert_Some in Hw as [[<- <-]|[_ Hw]];
          [by split|]).
  done.
Qed.

Lemma rotate_and_back_restore_witness :
  ∃ ws1 tr1 tr2,
    Windows.notify term "rotate" registry_abc_focused = Done (ws1, tr1)
    ∧ Windows.notify term "rotate-back" ws1 = Done (registry_abc_focused, tr2).
Proof.
  exact (proj1 (rotate_and_back_restore term registry_abc_focused
                  registry_abc_focused_ready registry_abc_focused_head)).
Defined.

Lemma full_cycle_restores_witness :
  ∃ tr, for_each (Windows.notify term) ["rotate"; "rotate"; "rotate"]
          registry_abc_focused
        = Done (registry_abc_focused, tr).
Proof.
  exact (proj1 (full_cycle_restores term registry_abc_focused
                  registry_abc_focused_ready registry_abc_focused_head)).
Defined.

(** ** Registration, in detail *)

Section MoreRegistration.
Context {Env WINDOW : Type} `{!Ncurses Env WINDOW}.
Implicit Types (w : Window.t Env WINDOW) (ws : Windows.t Env WINDOW).
Implicit Types (app : App.t Env WINDOW) (env : Env) (name : string).

Lemma setOption_resize env opt w :
  Window.setOption env opt w = Window.resize env (option_flag opt w).
Proof. by destruct opt. Qed.

Lemma resizable_option_flag env opt w :
  resizable env w → resizable env (option_flag opt w).
Proof. intros (f & s & ? & ? & ?). exists f, s. by destruct opt. Qed.

Lemma same_but_win_option_flag opt w w' :
  same_but_win w w' → same_but_win (option_flag opt w) (option_flag opt w').
Proof.
  unfold same_but_win. intros Hsame.
  destruct w, w'; simpl in *. destruct opt; simpl; by simplify_eq.
Qed.

Lemma same_but_win_trans w1 w2 w3 :
  same_but_win w1 w2 → same_but_win w2 w3 → same_but_win w1 w3.
Proof. unfold same_but_win. congruence. Qed.

Lemma same_but_win_foldl opts w w' :
  same_but_win w w' →
  same_but_win (foldl (λ w opt, option_flag opt w) w opts)
    (foldl (λ w opt, option_flag opt w) w' opts).
Proof.
  revert w w'. induction opts as [|opt opts IH]; intros w w' Hsame; [done|].
  simpl. by apply IH, same_but_win_option_flag.
Qed.

(** The fold of [addWindow] over its options. *)
Lemma setOptions_run env name opts ws w :
  Windows._windows ws !! name = Some w → resizable env w →
  ∃ ws' tr w',
    for_each (λ opt ws, Windows.on_window (Window.setOption env opt) name ws)
      opts ws = Done (ws', tr)
    ∧ Windows._windowsOrder ws' = Windows._windowsOrder ws
    ∧ Windows._windows ws' !! name = Some w'
    ∧ same_but_win (foldl (λ w opt, option_flag opt w) w opts) w'
    ∧ is_Some (Window._win w')
    ∧ ∀ other, other ≠ name →
        Windows._windows ws' !! other = Windows._windows ws !! other.
Proof.
  revert ws w. induction opts as [|opt opts IH]; intros ws w Hw Hres.
  - exists ws, [], w. repeat split; try done.
    destruct Hres as (f & s & _ & _ & ->). by eexists.
  - destruct (resize_resizable env (option_flag opt w)
                (resizable_option_flag env opt w Hres))
      as (w1 & tr1 & Hrun1 & Hsame1 & Hkeep1).
    rewrite <- setOption_resize in Hrun1.
    simpl. rewrite (on_window_Done _ _ _ _ _ _ Hw Hrun1).
    set (ws1 := Windows.set_windows _ ws).
    destruct (IH ws1 w1) as (ws' & tr2 & w' & Hrun & Hord & Hw' & Hsame & Hwin & Hframe).
    { apply lookup_insert_eq. }
    { by apply Hkeep1, resizable_option_flag. }
    unfold io_bind. rewrite Hrun.
    exists ws', (tr1 ++ tr2), w'.
    split; [done|]. split; [exact Hord|]. split; [done|].
    split; [|split; [done|]].
    + eapply same_but_win_trans; [|exact Hsame].
      by apply same_but_win_foldl.
    + intros other Hne. rewrite (Hframe other Hne). unfold ws1; simpl.
      by rewrite lookup_insert_ne.
Qed.

Lemma set_win_None w : Window._win w = None → Window.set_win None w = w.
Proof. destruct w; simpl. by intros ->. Qed.

Lemma win_foldl_option_flag opts w :
  Window._win (foldl (λ w opt, option_flag opt w) w opts) = Window._win w.
Proof.
  revert w. induction opts as [|opt opts IH]; intros w; [done|].
  simpl. rewrite IH. by destruct opt.
Qed.

Lemma make_run env name f :
  (4 ≤ length (f env))%nat →
  ∃ s tr, Window.make env name (Some f)
          = Done (Window.set_win (Some s) (unsurfaced name (Some f)), tr).
Proof.
  intros (d0 & d1 & d2 & d3 & H0 & H1 & H2 & H3)%four_dims.
  unfold Window.make, Window.getDims. simpl.
  rewrite H0, H1, H2, H3. simpl. by eexists _, _.
Qed.

Lemma addWindow_run env name f opts app :
  (4 ≤ length (f env))%nat →
  ∃ app' tr w',
    App.addWindow env name (Some f) opts app = Done (app', tr)
    ∧ Windows._windowsOrder (App.windows app')
      = Windows._windowsOrder (App.windows app) ++ [name]
    ∧ Windows._windows (App.windows app') !! name = Some w'
    ∧ Window.set_win None w'
      = foldl (λ w opt, option_flag opt w) (unsurfaced name (Some f)) opts
    ∧ is_Some (Window._win w')
    ∧ ∀ other, other ≠ name →
        Windows._windows (App.windows app') !! other
        = Windows._windows (App.windows app) !! other.
Proof.
  intros Hlen. unfold App.addWindow.
  destruct (make_run env name f Hlen) as (s & tr1 & ->).
  unfold io_bind at 1.
  destruct (Windows.subscript name (App.windows app)) as [w0 ws0] eqn:Hsub.
  set (w1 := Window.set_win (Some s) _).
  set (ws1 := Windows.set_windows _ ws0).
  destruct (setOptions_run env name opts ws1 w1)
    as (ws' & tr2 & w' & Hrun & Hord & Hw' & Hsame & Hwin & Hframe).
  { apply lookup_insert_eq. }
  { by exists f, s. }
  unfold io_bind at 1. rewrite Hrun. simpl.
  assert (Windows._windowsOrder ws0 = Windows._windowsOrder (App.windows app)
          ∧ ∀ other, other ≠ name →
              Windows._windows ws0 !! other
              = Windows._windows (App.windows app) !! other) as [Hord0 Hframe0].
  { unfold Windows.subscript in Hsub.
    destruct (Windows._windows (App.windows app) !! name);
      injection Hsub as <- <-; [done|].
    split; [done|]. intros other Hne. simpl. by rewrite lookup_insert_ne. }
  eexists _, _, w'. split; [done|]. simpl.
  split; [by rewrite Hord, <- Hord0|]. split; [done|]. split; [|split; [done|]].
  - assert (same_but_win (unsurfaced name (Some f)) w1) as Hw1 by done.
    apply (same_but_win_foldl opts) in Hw1.
    pose proof (same_but_win_trans _ _ _ Hw1 Hsame) as Hall.
    unfold same_but_win in Hall. rewrite Hall.
    apply set_win_None. by rewrite win_foldl_option_flag.
  - intros other Hne. rewrite (Hframe other Hne). unfold ws1; simpl.
    rewrite lookup_insert_ne by done. by apply Hframe0.
Qed.

Lemma content_foldl_option_flag opts w :
  Window._content (foldl (λ w opt, option_flag opt w) w opts) = Window._content w
  ∧ Window._selected (foldl (λ w opt, option_flag opt w) w opts)
    = Window._selected w
  ∧ Window._name (foldl (λ w opt, option_flag opt w) w opts) = Window._name w
  ∧ Window._getDims (foldl (λ w opt, option_flag opt w) w opts)
    = Window._getDims w.
Proof.
  revert w. induction opts as [|opt opts IH]; intros w; [done|].
  simpl. destruct (IH (option_flag opt w)) as (-> & -> & -> & ->).
  by destruct opt.
Qed.

End MoreRegistration.

(** ** Content of a window, and the event loop *)

Lemma io_bind_ext {W A B} (m : io W A) (f g : A → io W B) :
  (∀ a, f a = g a) → io_bind m f = io_bind m g.
Proof. intros Hfg. destruct m as [[a t]| |]; simpl; [|done..]. by rewrite Hfg. Qed.

Lemma io_ret_bind {W A B} (a : A) (f : A → io W B) :
  io_bind (io_ret a) f = f a.
Proof. unfold io_bind, io_ret. by destruct (f a) as [[b t]| |]. Qed.

Section MoreApp.
Context {Env WINDOW : Type} `{!Ncurses Env WINDOW}.
Implicit Types (w : Window.t Env WINDOW) (ws : Windows.t Env WINDOW).
Implicit Types (app : App.t Env WINDOW) (env : Env) (name : string).

Lemma contentAdd_run env w :
  resizable env w → Content._rptr (Window._content w) = 0 →
  ∃ w' tr c',
    Content.allocateNew (Window._content w) = Done c'
    ∧ (∀ v, Window.contentAdd_str env v w = Done (w', tr))
    ∧ (∀ f, Window.contentAdd_fn env f w = Done (w', tr))
    ∧ same_but_win (Window.set_content c' w) w'
    ∧ is_Some (Window._win w').
Proof.
  intros Hres Hr.
  destruct (allocateNew_run (Window._content w) Hr) as (c' & Hc' & _).
  destruct (resize_resizable env (Window.set_content c' w))
    as (w' & tr & Hrun & Hsame & Hkeep).
  { destruct Hres as (f & s & ? & ? & ?). by exists f, s. }
  exists w', tr, c'. split; [done|].
  unfold Window.contentAdd_str, Window.contentAdd_fn, Content.add_str,
    Content.add_fn. rewrite Hc'. simpl. rewrite Hrun.
  repeat split; try done.
  destruct Hres as (f & s & Hf & Hlen & Hs).
  destruct (Hkeep env) as (f' & s' & _ & _ & ->); [by exists f, s|by eexists].
Qed.

(** X14.  [contentAdd] (either overload) on a window that can be resized
    returns and stores nothing of its argument: the result is the same
    for every value and every producer; cell (0, 0) of the grid exists
    afterwards, empty and disabled when the grid had none; the reported
    content size, the name, the decoration and the selection of the
    window are unchanged. *)
Theorem contentAdd_drops_its_argument env w :
  resizable env w → Content._rptr (Window._content w) = 0 →
  ∃ w' tr,
    (∀ v, Window.contentAdd_str env v w = Done (w', tr))
    ∧ (∀ f, Window.contentAdd_fn env f w = Done (w', tr))
    ∧ Window.contentSize w' = Window.contentSize w
    ∧ Content.valid_index (Window._content w') 0 0
    ∧ (Content.cell (Window._content w) 0 0 = None →
       Content.cell (Window._content w') 0 0 = Some Item.default)
    ∧ Window.set_content (Window._content w) (Window.set_win None w')
      = Window.set_win None w.
Proof.
  intros Hres Hr.
  destruct (contentAdd_run env w Hres Hr)
    as (w' & tr & c' & Hc' & Hstr & Hfn & Hsame & _).
  destruct (allocateNew_run (Window._content w) Hr)
    as (c2 & Hc2 & _ & _ & _ & _ & Hnew & Hvalid & Hsize).
  assert (c2 = c') as -> by congruence.
  assert (Window._content w' = c') as Hcontent.
  { unfold same_but_win in Hsame.
    by apply (f_equal Window._content) in Hsame. }
  exists w', tr. split; [done|]. split; [done|].
  unfold Window.contentSize. rewrite Hcontent.
  split; [done|]. split; [done|]. split; [done|].
  unfold same_but_win in Hsame. destruct w, w'; simpl in *. by simplify_eq.
Qed.

Lemma loop_stops_at_q (pre post : list (Env * Z)) env ws :
  App.loop (pre ++ (env, App.key_q) :: post) ws = App.loop pre ws.
Proof.
  revert ws. induction pre as [|[e c] pre IH]; intros ws; [done|].
  simpl. case_decide; [done|].
  repeat (apply io_bind_ext; intros ?). by rewrite IH.
Qed.

(** X15.  [run] reads no key after the first ['q']: what follows it in
    the input changes nothing.  A key that is neither ['q'], Tab,
    Shift-Tab nor the resize key only makes the loop call [doupdate]: the
    registry is unchanged. *)
Theorem run_stops_at_q env (pre post : list (Env * Z)) env' app :
  App.run env (pre ++ (env', App.key_q) :: post) app = App.run env pre app
  ∧ ∀ ws,
      Forall (λ kc, kc.2 ≠ App.key_q ∧ kc.2 ≠ App.key_tab
                    ∧ kc.2 ≠ App.KEY_BTAB ∧ kc.2 ≠ App.KEY_RESIZE) pre →
      App.loop pre ws = Done (ws, replicate (length pre) c_doupdate).
Proof.
  split.
  - unfold App.run. apply io_bind_ext. intros ws.
    by rewrite loop_stops_at_q.
  - intros ws Hall. induction Hall as [|[e c] keys (H1 & H2 & H3 & H4) _ IH];
      [done|].
    simpl in *. rewrite decide_False by done.
    rewrite decide_False, io_ret_bind by done.
    rewrite decide_False, io_ret_bind by done.
    rewrite decide_False, io_ret_bind by done.
    simpl. by rewrite IH.
Qed.
End MoreApp.

Lemma contentAdd_drops_its_argument_witness :
  ∃ w' tr,
    Window.contentAdd_str term "holi" (plain_window "Vars") = Done (w', tr)
    ∧ Content.cell (Window._content w') 0 0 = Some Item.default
    ∧ Window.contentSize w' = [-1; 1].
Proof.
  destruct (contentAdd_drops_its_argument term (plain_window "Vars")
              (plain_window_resizable term "Vars") eq_refl)
    as (w' & tr & Hstr & _ & Hsize & _ & Hcell & _).
  exists w', tr. split; [exact (Hstr "holi")|].
  split; [exact (Hcell eq_refl)|exact Hsize].
Defined.

Lemma run_stops_at_q_witness :
  App.loop [(term, 120); (term, 32)] registry_abc
  = Done (registry_abc, [c_doupdate; c_doupdate]).
Proof.
  apply (proj2 (run_stops_at_q term [(term, 120); (term, 32)] [] term
                  (App.mk registry_abc))).
  repeat apply Forall_cons_2; [by vm_compute..|apply Forall_nil_2].
Defined.

(** ** The layout of [initWindows] *)

(** X16.  The seven rectangles of [initWindows] tile the terminal: on a
    terminal of at least 5 lines and 65 columns, every cell of the
    terminal lies in exactly one of them. *)
Theorem layout_tiles_terminal {Env} (stdscr_maxy stdscr_maxx : Env → Z)
    (env : Env) (y x : Z) :
  5 ≤ stdscr_maxy env → 65 ≤ stdscr_maxx env →
  0 ≤ y < stdscr_maxy env → 0 ≤ x < stdscr_maxx env →
  length (List.filter (λ dims, Main.covers dims y x)
            [Main.menu_dims stdscr_maxx env;
             Main.status_dims stdscr_maxy stdscr_maxx env;
             Main.stack_dims stdscr_maxy env;
             Main.input_dims env;
             Main.result_dims stdscr_maxx env;
             Main.ops_dims stdscr_maxy env;
             Main.vars_dims stdscr_maxy stdscr_maxx env])
  = 1%nat.
Proof.
  intros Hy Hx Hcy Hcx.
  unfold Main.menu_dims, Main.status_dims, Main.stack_dims, Main.input_dims,
    Main.result_dims, Main.ops_dims, Main.vars_dims, Main.covers,
    Main.STACK_WIDTH, Main.INPUT_WIDTH.
  cbn [List.filter].
  repeat (match goal with
          | |- context [if ?b then _ else _] => destruct b eqn:?
          end);
    simpl; lia.
Qed.

Lemma layout_tiles_terminal_witness :
  length (List.filter (λ dims, Main.covers dims 3 64)
            [Main.menu_dims snd term;
             Main.status_dims fst snd term;
             Main.stack_dims fst term;
             Main.input_dims term;
             Main.result_dims snd term;
             Main.ops_dims fst term;
             Main.vars_dims fst snd term])
  = 1%nat.
Proof.
  apply layout_tiles_terminal; unfold term; simpl; lia.
Defined.

(** ** The program *)

Lemma rotate_right_Permutation {A} (l : list A) : rotate_right l ≡ₚ l.
Proof.
  destruct l as [|x init _] using rev_ind; [done|].
  rewrite rotate_right_snoc. apply Permutation_cons_append.
Qed.

Lemma rotate_left_Permutation {A} (l : list A) : rotate_left l ≡ₚ l.
Proof.
  destruct l as [|x rest]; [done|]. simpl. symmetry.
  apply Permutation_cons_append.
Qed.

Lemma io_bind_run {W A B} (m : io W A) (f : A → io W B) a t b t2 :
  m = Done (a, t) → f a = Done (b, t2) → io_bind m f = Done (b, t ++ t2).
Proof. intros -> Hf. simpl. by rewrite Hf. Qed.

Section MoreMain.
Context {Env WINDOW : Type} `{!Ncurses Env WINDOW}.
Context (stdscr_maxy stdscr_maxx : Env → Z) (f1 : Env → string).
Implicit Types (w : Window.t Env WINDOW) (ws : Windows.t Env WINDOW).
Implicit Types (app : App.t Env WINDOW) (env : Env) (name : string).

Lemma laid_out_facts entry w :
  laid_out entry w →
  Window._getDims w = Some entry.1.2 ∧ Window._selected w = false
  ∧ Window._content w = Content.default ∧ is_Some (Window._win w)
  ∧ Window._name w = entry.1.1.
Proof.
  intros [Hflags Hwin].
  destruct (content_foldl_option_flag entry.2
              (unsurfaced (WINDOW := WINDOW) entry.1.1 (Some entry.1.2)))
    as (Hc & Hs & Hn & Hg).
  rewrite <- Hflags in Hc, Hs, Hn, Hg. done.
Qed.

Lemma layout_four_dims :
  Forall (λ entry : string * (Env → list Z) * list WinOpt,
            ∀ env, length (entry.1.2 env) = 4%nat)
    (layout stdscr_maxy stdscr_maxx).
Proof. repeat apply Forall_cons_2; [done..|apply Forall_nil_2]. Qed.

Lemma laid_out_resizable entry w env :
  entry ∈ layout stdscr_maxy stdscr_maxx → laid_out entry w → resizable env w.
Proof.
  intros Hin Hlaid.
  destruct (laid_out_facts entry w Hlaid) as (Hg & _ & _ & [s Hs] & _).
  exists entry.1.2, s. split; [done|]. split; [|done].
  pose proof layout_four_dims as Hall.
  rewrite Forall_forall in Hall. rewrite (Hall entry Hin env). lia.
Qed.

(** [initWindows], step by step. *)
Lemma initWindows_run env app :
  ∃ app' tr,
    Main.initWindows stdscr_maxy stdscr_maxx env app = Done (app', tr)
    ∧ Windows._windowsOrder (App.windows app') = Main.focus_names
    ∧ Forall (λ entry, ∃ w, Windows._windows (App.windows app') !! entry.1.1
                            = Some w ∧ laid_out entry w)
        (layout stdscr_maxy stdscr_maxx)
    ∧ ∀ other, other ∉ (λ entry, entry.1.1) <$> layout stdscr_maxy stdscr_maxx →
        Windows._windows (App.windows app') !! other
        = Windows._windows (App.windows app) !! other.
Proof.
  destruct (addWindow_run env "Menu" (Main.menu_dims stdscr_maxx)
              [NOBOXED; NOTITLED] app)
    as (app1 & tr1 & w1 & Hrun1 & _ & Hw1 & Hl1 & Hs1 & Hf1); [simpl; lia|].
  destruct (addWindow_run env "Status" (Main.status_dims stdscr_maxy stdscr_maxx)
              [NOBOXED; NOTITLED] app1)
    as (app2 & tr2 & w2 & Hrun2 & _ & Hw2 & Hl2 & Hs2 & Hf2); [simpl; lia|].
  destruct (addWindow_run env "Stack" (Main.stack_dims stdscr_maxy) [] app2)
    as (app3 & tr3 & w3 & Hrun3 & _ & Hw3 & Hl3 & Hs3 & Hf3); [simpl; lia|].
  destruct (addWindow_run env "Input" Main.input_dims [] app3)
    as (app4 & tr4 & w4 & Hrun4 & _ & Hw4 & Hl4 & Hs4 & Hf4); [simpl; lia|].
  destruct (addWindow_run env "Result" (Main.result_dims stdscr_maxx) [] app4)
    as (app5 & tr5 & w5 & Hrun5 & _ & Hw5 & Hl5 & Hs5 & Hf5); [simpl; lia|].
  destruct (addWindow_run env "Ops" (Main.ops_dims stdscr_maxy) [] app5)
    as (app6 & tr6 & w6 & Hrun6 & _ & Hw6 & Hl6 & Hs6 & Hf6); [simpl; lia|].
  destruct (addWindow_run env "Vars" (Main.vars_dims stdscr_maxy stdscr_maxx)
              [] app6)
    as (app7 & tr7 & w7 & Hrun7 & _ & Hw7 & Hl7 & Hs7 & Hf7); [simpl; lia|].
  eexists _, _. split.
  { unfold Main.initWindows.
    eapply io_bind_run; [reflexivity|].
    eapply io_bind_run; [exact Hrun1|].
    eapply io_bind_run; [exact Hrun2|].
    eapply io_bind_run; [exact Hrun3|].
    eapply io_bind_run; [exact Hrun4|].
    eapply io_bind_run; [exact Hrun5|].
    eapply io_bind_run; [exact Hrun6|].
    eapply io_bind_run; [exact Hrun7|].
    reflexivity. }
  split; [done|]. split.
  - repeat apply Forall_cons_2; [..|apply Forall_nil_2]; simpl.
    + exists w1. split; [|done].
      by rewrite Hf7, Hf6, Hf5, Hf4, Hf3, Hf2 by done.
    + exists w2. split; [|done]. by rewrite Hf7, Hf6, Hf5, Hf4, Hf3 by done.
    + exists w3. split; [|done]. by rewrite Hf7, Hf6, Hf5, Hf4 by done.
    + exists w4. split; [|done]. by rewrite Hf7, Hf6, Hf5 by done.
    + exists w5. split; [|done]. by rewrite Hf7, Hf6 by done.
    + exists w6. split; [|done]. by rewrite Hf7 by done.
    + exists w7. by split.
  - intros other Hnin. simpl in *.
    rewrite Hf7, Hf6, Hf5, Hf4, Hf3, Hf2, Hf1; [done|..];
      intros ->; apply Hnin; repeat (first [by left|right]).
Qed.

(** X17.  [initWindows] returns in every terminal state and on every
    application: it stores the seven windows ["Menu"], ["Status"],
    ["Stack"], ["Input"], ["Result"], ["Ops"] and ["Vars"], each made
    from scratch with its geometry provider and options (so ["Menu"] and
    ["Status"] without border or title, the others bordered, titled and
    left-aligned), none selected; it leaves the other stored windows as
    they are; and it sets the focus order to Stack, Ops, Vars, Result,
    Input, whatever it was. *)
Theorem initWindows_layout env app :
  ∃ app' tr,
    Main.initWindows stdscr_maxy stdscr_maxx env app = Done (app', tr)
    ∧ Windows._windowsOrder (App.windows app')
      = ["Stack"; "Ops"; "Vars"; "Result"; "Input"]
    ∧ Forall (λ entry, ∃ w, Windows._windows (App.windows app') !! entry.1.1
                            = Some w
                            ∧ laid_out entry w
                            ∧ Window._selected w = false
                            ∧ Window._content w = Content.default)
        (layout stdscr_maxy stdscr_maxx)
    ∧ ∀ other, other ∉ ["Menu"; "Status"; "Stack"; "Input"; "Result"; "Ops"; "Vars"] →
        Windows._windows (App.windows app') !! other
        = Windows._windows (App.windows app) !! other.
Proof.
  destruct (initWindows_run env app) as (app' & tr & Hrun & Hord & Hall & Hframe).
  exists app', tr. split; [done|]. split; [done|]. split; [|done].
  eapply Forall_impl; [exact Hall|].
  intros entry (w & Hw & Hlaid). exists w.
  destruct (laid_out_facts entry w Hlaid) as (_ & ? & ? & _). done.
Qed.
End MoreMain.

Section Program.
Context {Env WINDOW : Type} `{!Ncurses Env WINDOW}.
Context (stdscr_maxy stdscr_maxx : Env → Z) (f1 : Env → string).
Implicit Types (w : Window.t Env WINDOW) (ws : Windows.t Env WINDOW).
Implicit Types (app : App.t Env WINDOW) (env : Env) (name : string).

Lemma windows_related_mono
    (R R' : Window.t Env WINDOW → Window.t Env WINDOW → Prop) ws ws' :
  (∀ w w', R w w' → R' w w') →
  windows_related R ws ws' → windows_related R' ws ws'.
Proof.
  intros HR Hrel name. specialize (Hrel name).
  destruct Hrel; constructor. by apply HR.
Qed.

Lemma kept_refl w : kept w w.
Proof. by split. Qed.

Lemma kept_trans w1 w2 w3 : kept w1 w2 → kept w2 w3 → kept w1 w3.
Proof. intros [E1 R1] [E2 R2]. split; [congruence|eauto]. Qed.

Lemma resized_kept w w' : resized w w' → kept w w'.
Proof.
  intros [Hsame Hres]. split; [|done].
  unfold same_but_win in Hsame.
  by apply (f_equal Window._selected) in Hsame.
Qed.

Lemma same_but_selected_resizable env w w' :
  same_but_selected w w' → resizable env w → resizable env w'.
Proof.
  unfold same_but_selected. intros Hsame (f & s & Hf & Hlen & Hs).
  exists f, s.
  pose proof (f_equal Window._getDims Hsame) as Hg.
  pose proof (f_equal Window._win Hsame) as Hw. simpl in *.
  split; [congruence|]. split; [done|congruence].
Qed.

(** Operations that keep every window keep the registry in order. *)
Lemma kept_in_order env ws ws' :
  healthy ws → focus_ready ws →
  windows_related kept ws ws' →
  Windows._windowsOrder ws' = Windows._windowsOrder ws →
  healthy ws' ∧ focus_ready ws' ∧ (head_selected ws → head_selected ws').
Proof.
  intros Hh (Hnd & Hd & Hout) Hrel Hord.
  assert (Hh' : healthy ws').
  { intros name w' Hw' env'. specialize (Hrel name). rewrite Hw' in Hrel.
    inversion Hrel as [w ? [_ Hr] E|]; subst.
    apply Hr, (Hh name). done. }
  split; [done|]. split; [split; [by rewrite Hord|split]|].
  - intros name Hin. rewrite Hord in Hin.
    destruct (Hd name Hin) as (w & Hw & _).
    specialize (Hrel name). rewrite Hw in Hrel.
    inversion Hrel as [? w' _ E1 E2|]; subst. symmetry in E2.
    exists w'. split; [done|].
    destruct (Hh' name w' E2 env) as (f & s & _ & _ & ->). by eexists.
  - intros name w' Hw' Hnin. rewrite Hord in Hnin.
    specialize (Hrel name). rewrite Hw' in Hrel.
    inversion Hrel as [w ? [Hsel _] E|]; subst.
    rewrite Hsel. by apply (Hout name).
  - intros (head & others & w0 & Ho & Hw0 & Hsel).
    pose proof (Hrel head) as Hhead. rewrite Hw0 in Hhead.
    inversion Hhead as [? w0' _ E1 E2|]; subst. symmetry in E2.
    exists head, others, w0'. split; [by rewrite Hord|]. split; [done|].
    intros name w' Hw'. specialize (Hrel name). rewrite Hw' in Hrel.
    inversion Hrel as [w ? [Hflag _] E|]; subst.
    rewrite Hflag. by apply Hsel.
Qed.

Lemma notify_resize_in_order env ws :
  in_order ws →
  ∃ ws' tr,
    Windows.notify env "resize" ws = Done (ws', tr)
    ∧ in_order ws'
    ∧ Windows._windowsOrder ws' = Windows._windowsOrder ws
    ∧ same_names ws ws'.
Proof.
  intros (Hh & Hready & Hsel).
  rewrite notify_resize_unfold. unfold Windows.resizeAllWindows.
  destruct (resize_each env (map_to_list (Windows._windows ws)) ws)
    as (ws' & tr & Hrun & Hord & Hrel).
  { intros [k w] Hkw%elem_of_map_to_list. by exists w. }
  { intros name w Hw. by apply (Hh name). }
  simpl. rewrite Hrun. exists ws', (c_wnoutrefresh None :: tr).
  split; [done|].
  destruct (kept_in_order env ws ws' Hh Hready) as (? & ? & Hkeep);
    [by eapply windows_related_mono; [apply resized_kept|]|done|].
  split; [split; [done|split; [done|by apply Hkeep]]|]. split; [done|].
  by eapply windows_related_mono; [|exact Hrel].
Qed.

Lemma notify_rotation_in_order env (message : string) ws :
  rotation message →
  healthy ws → focus_ready ws → Windows._windowsOrder ws ≠ [] →
  ∃ ws' tr,
    Windows.notify env message ws = Done (ws', tr)
    ∧ in_order ws'
    ∧ Windows._windowsOrder ws' ≡ₚ Windows._windowsOrder ws
    ∧ same_names ws ws'.
Proof.
  intros Hm Hh Hready Hne.
  assert (∃ ws' tr,
    Windows.notify env message ws = Done (ws', tr)
    ∧ Windows._windowsOrder ws' ≡ₚ Windows._windowsOrder ws
    ∧ focus_ready ws' ∧ head_selected ws'
    ∧ windows_related same_but_selected ws ws')
    as (ws' & tr & Hrun & Hperm & Hready' & Hsel' & Hrel).
  { destruct Hm as [-> | ->].
    - destruct (rotate_step_related env ws Hready Hne)
        as (ws' & tr & Hrun & Hord & ?).
      exists ws', tr. split; [done|]. split; [|done].
      rewrite Hord. apply rotate_right_Permutation.
    - destruct (rotate_back_step_related env ws Hready Hne)
        as (ws' & tr & Hrun & Hord & ?).
      exists ws', tr. split; [done|]. split; [|done].
      rewrite Hord. apply rotate_left_Permutation. }
  exists ws', tr. split; [done|]. split; [|split; [done|]].
  - split; [|done]. intros name w' Hw' env'.
    specialize (Hrel name). rewrite Hw' in Hrel.
    inversion Hrel as [w ? Hsame E|]; subst.
    apply (same_but_selected_resizable env' w w' Hsame), (Hh name). done.
  - by eapply windows_related_mono; [|exact Hrel].
Qed.

Lemma same_names_trans ws1 ws2 ws3 :
  same_names (Env := Env) (WINDOW := WINDOW) ws1 ws2 →
  same_names ws2 ws3 → same_names ws1 ws3.
Proof. apply windows_related_trans. done. Qed.

(** One conditional request of the loop. *)
Lemma request_in_order env (P : Prop) `{!Decision P} (message : string) ws :
  message = "resize" ∨ rotation message →
  in_order ws →
  ∃ ws' tr,
    (if decide P then Windows.notify env message ws else io_ret ws)
    = Done (ws', tr)
    ∧ in_order ws'
    ∧ Windows._windowsOrder ws' ≡ₚ Windows._windowsOrder ws
    ∧ same_names ws ws'.
Proof.
  intros Hm Hin. destruct (decide P) as [_|_].
  - destruct Hm as [->|Hm].
    + destruct (notify_resize_in_order env ws Hin)
        as (ws' & tr & Hrun & ? & Hord & ?).
      exists ws', tr. by rewrite Hord.
    + destruct Hin as (Hh & Hready & Hsel).
      by apply notify_rotation_in_order;
        [..|apply (head_selected_nonempty ws)].
  - exists ws, []. repeat split; try done; try apply Hin.
    by apply windows_related_refl.
Qed.

Lemma loop_in_order (input : list (Env * Z)) ws :
  in_order ws →
  ∃ ws' tr,
    App.loop input ws = Done (ws', tr)
    ∧ in_order ws'
    ∧ Windows._windowsOrder ws' ≡ₚ Windows._windowsOrder ws
    ∧ same_names ws ws'.
Proof.
  revert ws. induction input as [|[env c] input IH]; intros ws Hin.
  { exists ws, []. do 3 (split; [done|]). by apply windows_related_refl. }
  simpl. destruct (decide (c = App.key_q)) as [_|_].
  { exists ws, []. do 3 (split; [done|]). by apply windows_related_refl. }
  destruct (request_in_order env (c = App.KEY_RESIZE) "resize" ws)
    as (ws1 & tr1 & Hrun1 & Hin1 & Hp1 & Hn1); [by left|done|].
  destruct (request_in_order env (c = App.key_tab) "rotate" ws1)
    as (ws2 & tr2 & Hrun2 & Hin2 & Hp2 & Hn2); [right; by left|done|].
  destruct (request_in_order env (c = App.KEY_BTAB) "rotate-back" ws2)
    as (ws3 & tr3 & Hrun3 & Hin3 & Hp3 & Hn3); [right; by right|done|].
  destruct (IH ws3 Hin3) as (ws' & tr & Hrun & Hin' & Hp & Hn).
  exists ws'. eexists. split; [|split; [done|split]].
  - eapply io_bind_run.
    { exact Hrun1. }
    eapply io_bind_run.
    { exact Hrun2. }
    eapply io_bind_run.
    { exact Hrun3. }
    by rewrite Hrun.
  - by rewrite Hp, Hp3, Hp2, Hp1.
  - eauto using same_names_trans.
Qed.

Lemma contentAdd_kept env w :
  resizable env w → Content._rptr (Window._content w) = 0 →
  ∃ w' tr,
    (∀ v, Window.contentAdd_str env v w = Done (w', tr))
    ∧ (∀ f, Window.contentAdd_fn env f w = Done (w', tr))
    ∧ kept w w'.
Proof.
  intros Hres Hr.
  destruct (contentAdd_run env w Hres Hr)
    as (w' & tr & c' & _ & Hstr & Hfn & Hsame & [s' Hs']).
  exists w', tr. split; [done|]. split; [done|].
  unfold same_but_win in Hsame.
  pose proof (f_equal Window._selected Hsame) as Hsel.
  pose proof (f_equal Window._getDims Hsame) as Hg. simpl in *.
  split; [done|].
  intros env' (f & s & Hf & Hlen & _). exists f, s'.
  split; [congruence|done].
Qed.
Lemma same_names_stored ws ws' name :
  same_names ws ws' →
  is_Some (Windows._windows ws' !! name) ↔ is_Some (Windows._windows ws !! name).
Proof.
  intros Hrel. specialize (Hrel name).
  destruct Hrel; split; intros [? ?]; by eexists.
Qed.

Lemma window_stored name app w :
  Windows._windows (App.windows app) !! name = Some w →
  App.window name app = Done (w, app).
Proof.
  intros Hw. unfold App.window, Windows.subscript. rewrite Hw.
  by destruct app.
Qed.

(** [initContent] on a registry that stores ["Vars"] and ["Status"] with
    empty grids. *)
Lemma initContent_run env app wv wst :
  healthy (App.windows app) →
  Windows._windows (App.windows app) !! "Vars" = Some wv →
  Windows._windows (App.windows app) !! "Status" = Some wst →
  Window._content wv = Content.default →
  Window._content wst = Content.default →
  ∃ app' tr,
    Main.initContent f1 env app = Done (app', tr)
    ∧ Windows._windowsOrder (App.windows app')
      = Windows._windowsOrder (App.windows app)
    ∧ windows_related kept (App.windows app) (App.windows app').
Proof.
  intros Hh Hv Hs Hcv Hcs.
  destruct (contentAdd_kept env wv) as (wv' & tr1 & Hstr & _ & Hk1);
    [by apply (Hh "Vars")|by rewrite Hcv|].
  destruct (contentAdd_kept env wst) as (ws' & tr2 & _ & Hfn & Hk2);
    [by apply (Hh "Status")|by rewrite Hcs|].
  set (reg1 := Windows.set_windows (<["Vars" := wv']> (Windows._windows (App.windows app)))
                 (App.windows app)).
  assert (Hs1 : Windows._windows reg1 !! "Status" = Some wst)
    by (unfold reg1; simpl; by rewrite lookup_insert_ne).
  eexists _, _. split; [|split].
  - unfold Main.initContent.
    eapply io_bind_run; [by rewrite (window_stored "Vars" app wv Hv)|]. simpl.
    eapply io_bind_run; [by rewrite (window_stored "Status" app wst Hs)|]. simpl.
    eapply io_bind_run;
      [exact (on_window_Done _ _ _ _ _ _ Hv (Hstr "holi"))|].
    eapply io_bind_run;
      [exact (on_window_Done _ "Status" reg1 _ _ _ Hs1 (Hfn (Some f1)))|].
    reflexivity.
  - done.
  - simpl. eapply windows_related_trans; [apply kept_trans| |].
    + exact (windows_related_insert kept _ "Vars" wv wv' kept_refl Hv Hk1).
    + exact (windows_related_insert kept reg1 "Status" wst ws' kept_refl Hs1 Hk2).
Qed.

(** X18.  The program as [main] wires it ([initWindows], [initContent],
    [run]) never throws and never has undefined behaviour: in every
    terminal state and for every finite sequence of keys, each read in
    any terminal state, all its calls complete up to the point where
    ['q'] is read, where [main] returns, or where the keys are used up,
    where the program waits for the next key.  At that point the registry
    stores exactly the seven windows of the layout, the focus order is a
    permutation of Stack, Ops, Vars, Result, Input, exactly one window is
    selected, the one named by the head of the focus order, and ["Menu"]
    and ["Status"] are not selected. *)
Theorem main_is_safe env (input : list (Env * Z)) :
  ∃ app tr,
    Main.main stdscr_maxy stdscr_maxx f1 env input = Done (app, tr)
    ∧ head_selected (App.windows app)
    ∧ Windows._windowsOrder (App.windows app)
      ≡ₚ ["Stack"; "Ops"; "Vars"; "Result"; "Input"]
    ∧ (∀ name, is_Some (Windows._windows (App.windows app) !! name)
               ↔ name ∈ ["Menu"; "Status"; "Stack"; "Input"; "Result";
                          "Ops"; "Vars"])
    ∧ Windows.selected (App.windows app) "Menu" = Some false
    ∧ Windows.selected (App.windows app) "Status" = Some false.
Proof.
  destruct (initWindows_run stdscr_maxy stdscr_maxx env App.init)
    as (app0 & tr0 & Hrun0 & Hord0 & Hall0 & Hframe0).
  set (names := ["Menu"; "Status"; "Stack"; "Input"; "Result"; "Ops"; "Vars"]).
  assert (Hstored : ∀ name w,
    Windows._windows (App.windows app0) !! name = Some w →
    ∃ entry, entry ∈ layout stdscr_maxy stdscr_maxx
             ∧ entry.1.1 = name ∧ laid_out entry w).
  { intros name w Hw.
    destruct (decide (name ∈ (λ entry, entry.1.1) <$> layout stdscr_maxy stdscr_maxx))
      as [Hin|Hnin].
    - apply list_elem_of_fmap in Hin as (entry & -> & Hin).
      rewrite Forall_forall in Hall0.
      destruct (Hall0 entry Hin) as (w' & Hw' & Hlaid).
      exists entry. split; [done|]. split; [done|]. congruence.
    - rewrite (Hframe0 name Hnin) in Hw. done. }
  assert (Hnames : ∀ name,
    is_Some (Windows._windows (App.windows app0) !! name) ↔ name ∈ names).
  { intros name. split.
    - intros [w Hw]. destruct (Hstored name w Hw) as (entry & Hin & <- & _).
      apply (list_elem_of_fmap_2 (λ entry, entry.1.1)) in Hin. exact Hin.
    - intros Hin.
      change names with ((λ entry, entry.1.1) <$> layout stdscr_maxy stdscr_maxx)
        in Hin.
      apply list_elem_of_fmap in Hin as (entry & -> & Hin).
      rewrite Forall_forall in Hall0.
      destruct (Hall0 entry Hin) as (w' & Hw' & _). by eexists. }
  assert (Hh0 : healthy (App.windows app0)).
  { intros name w Hw env'. destruct (Hstored name w Hw) as (entry & Hin & _ & Hlaid).
    by eapply laid_out_resizable. }
  assert (Hready0 : focus_ready (App.windows app0)).
  { split; [|split].
    - rewrite Hord0. apply (bool_decide_unpack _). by vm_compute.
    - intros name Hin. rewrite Hord0 in Hin.
      assert (name ∈ names) as [w Hw]%Hnames.
      { unfold Main.focus_names in Hin. unfold names.
        repeat (apply elem_of_cons in Hin as [->|Hin];
                [repeat (first [by left|right])|]).
        by apply elem_of_nil in Hin. }
      destruct (Hstored name w Hw) as (entry & _ & _ & Hlaid).
      exists w. split; [done|].
      by destruct (laid_out_facts entry w Hlaid) as (_ & _ & _ & ? & _).
    - intros name w Hw _. destruct (Hstored name w Hw) as (entry & _ & _ & Hlaid).
      by destruct (laid_out_facts entry w Hlaid) as (_ & ? & _). }
  destruct (proj2 (Hnames "Vars")) as [wv Hv];
    [unfold names; repeat (first [by left|right])|].
  destruct (proj2 (Hnames "Status")) as [wst Hst];
    [unfold names; repeat (first [by left|right])|].
  destruct (Hstored "Vars" wv Hv) as (ev & _ & _ & Hlv).
  destruct (Hstored "Status" wst Hst) as (es & _ & _ & Hls).
  destruct (initContent_run env app0 wv wst Hh0 Hv Hst)
    as (app1 & tr1 & Hrun1 & Hord1 & Hrel1).
  { by destruct (laid_out_facts ev wv Hlv) as (_ & _ & ? & _). }
  { by destruct (laid_out_facts es wst Hls) as (_ & _ & ? & _). }
  destruct (kept_in_order env _ _ Hh0 Hready0 Hrel1 Hord1) as (Hh1 & Hready1 & _).
  destruct (notify_rotation_in_order env "rotate" (App.windows app1))
    as (ws2 & tr2 & Hrun2 & Hin2 & Hp2 & Hn2);
    [by left|done|done|by rewrite Hord1, Hord0|].
  destruct (loop_in_order input ws2 Hin2) as (ws3 & tr3 & Hrun3 & Hin3 & Hp3 & Hn3).
  assert (Hperm : Windows._windowsOrder ws3 ≡ₚ Main.focus_names)
    by (by rewrite Hp3, Hp2, Hord1, Hord0).
  assert (Hnames3 : ∀ name,
    is_Some (Windows._windows ws3 !! name) ↔ name ∈ names).
  { intros name. rewrite <- Hnames.
    rewrite (same_names_stored ws2 ws3 name Hn3).
    rewrite (same_names_stored (App.windows app1) ws2 name Hn2).
    apply same_names_stored.
    by eapply windows_related_mono; [|exact Hrel1]. }
  assert (Hunfocused : ∀ name, name ∈ names → name ∉ Main.focus_names →
    Windows.selected ws3 name = Some false).
  { intros name [w Hw]%Hnames3 Hnin. unfold Windows.selected. rewrite Hw.
    simpl. f_equal.
    destruct Hin3 as (_ & _ & head & others & w0 & Ho & _ & Hsel).
    destruct (Window._selected w) eqn:Hflag; [|done].
    apply (Hsel name w Hw) in Hflag as ->.
    destruct Hnin. rewrite <- Hperm, Ho. by left. }
  exists (App.mk ws3). eexists. split; [|split; [|split; [|split; [|split]]]].
  - unfold Main.main, App.run.
    eapply io_bind_run; [exact Hrun0|].
    eapply io_bind_run; [exact Hrun1|].
    eapply io_bind_run; [exact Hrun2|].
    eapply io_bind_run; [exact Hrun3|]. reflexivity.
  - apply Hin3.
  - exact Hperm.
  - exact Hnames3.
  - apply Hunfocused; [unfold names; repeat (first [by left|right])|].
    apply (bool_decide_unpack _). by vm_compute.
  - apply Hunfocused; [unfold names; repeat (first [by left|right])|].
    apply (bool_decide_unpack _). by vm_compute.
Qed.
End Program.

(** ** Selection under every notification (C2) *)

Section Selection.
Context {Env WINDOW : Type} `{!Ncurses Env WINDOW}.
Implicit Types (ws : Windows.t Env WINDOW) (env : Env).

Lemma notify_unrecognised env (message : string) ws :
  message ≠ "resize" → ¬ rotation message →
  Windows.notify env message ws = Done (ws, []).
Proof.
  intros H1 H2. unfold Windows.notify.
  destruct (decide (message = "resize")); [done|]. simpl.
  destruct (decide (message = "rotate")); [destruct H2; by left|]. simpl.
  destruct (decide (message = "rotate-back")); [destruct H2; by right|done].
Qed.

Lemma rotation_dec (message : string) : Decision (rotation message).
Proof. unfold rotation. apply _. Defined.

(** One notification, whatever its message. *)
Lemma notify_step env (message : string) ws :
  healthy ws → focus_ready ws → Windows._windowsOrder ws ≠ [] →
  ∃ ws' tr,
    Windows.notify env message ws = Done (ws', tr)
    ∧ healthy ws' ∧ focus_ready ws'
    ∧ Windows._windowsOrder ws' ≡ₚ Windows._windowsOrder ws
    ∧ (rotation message ∨ head_selected ws → head_selected ws').
Proof.
  intros Hh Hready Hne.
  destruct (rotation_dec message) as [Hrot|Hrot].
  { destruct (notify_rotation_in_order env message ws Hrot Hh Hready Hne)
      as (ws' & tr & Hrun & (Hh' & Hready' & Hsel') & Hperm & _).
    by exists ws', tr. }
  destruct (decide (message = "resize")) as [->|Hres].
  - rewrite notify_resize_unfold. unfold Windows.resizeAllWindows.
    destruct (resize_each env (map_to_list (Windows._windows ws)) ws)
      as (ws' & tr & Hrun & Hord & Hrel).
    { intros [k w] Hkw%elem_of_map_to_list. by exists w. }
    { intros name w Hw. by apply (Hh name). }
    destruct (kept_in_order env ws ws' Hh Hready) as (Hh' & Hready' & Hkeep);
      [by eapply windows_related_mono; [apply resized_kept|]|done|].
    exists ws', (c_wnoutrefresh None :: tr).
    split; [simpl; by rewrite Hrun|].
    split; [done|]. split; [done|]. split; [by rewrite Hord|].
    intros [?|Hsel]; [done|by apply Hkeep].
  - rewrite (notify_unrecognised env message ws Hres Hrot).
    exists ws, []. split; [done|]. split; [done|]. split; [done|].
    split; [done|]. intros [?|?]; done.
Qed.

(** A sequence of notifications, each in a terminal state of its own. *)
Lemma notify_steps (requests : list (Env * string)) ws :
  healthy ws → focus_ready ws → Windows._windowsOrder ws ≠ [] →
  ∃ ws' tr,
    for_each (λ request, Windows.notify request.1 request.2) requests ws
    = Done (ws', tr)
    ∧ healthy ws' ∧ focus_ready ws'
    ∧ Windows._windowsOrder ws' ≡ₚ Windows._windowsOrder ws
    ∧ (Exists (λ request, rotation request.2) requests ∨ head_selected ws →
       head_selected ws').
Proof.
  revert ws. induction requests as [|[env message] requests IH];
    intros ws Hh Hready Hne.
  { exists ws, []. split; [done|]. split; [done|]. split; [done|].
    split; [done|]. intros [Hex|?]; [|done]. by apply Exists_nil in Hex. }
  destruct (notify_step env message ws Hh Hready Hne)
    as (ws1 & tr1 & Hrun1 & Hh1 & Hready1 & Hperm1 & Hsel1).
  assert (Hne1 : Windows._windowsOrder ws1 ≠ []).
  { intros E. rewrite E in Hperm1. by apply Permutation_nil in Hperm1. }
  destruct (IH ws1 Hh1 Hready1 Hne1)
    as (ws' & tr & Hrun & Hh' & Hready' & Hperm & Hsel).
  exists ws', (tr1 ++ tr). split; [|split; [done|split; [done|split]]].
  - simpl. rewrite Hrun1. unfold io_bind. by rewrite Hrun.
  - by rewrite Hperm, Hperm1.
  - intros [Hex|Hs].
    + apply Exists_cons in Hex as [Hrot|Hex].
      * apply Hsel. right. apply Hsel1. by left.
      * apply Hsel. by left.
    + apply Hsel. right. apply Hsel1. by right.
Qed.

(** C2, amended.  Setting the focus order and extending it change no
    window, so neither re-derives the selection.  For a registry whose
    focus order is non-empty, duplicate-free and names only stored
    windows with a created surface, and in which no window outside the
    focus order is selected: after every non-empty sequence of
    RotateForward and RotateBackward notifications exactly one stored
    window has selected = true, the one named by the head of the focus
    order.  When moreover every stored window can be resized, every
    sequence of notifications of any kind (resize, rotations, messages
    that are not recognised), each in a terminal state of its own,
    completes, and leaves exactly the window named by the head of the
    focus order selected if the sequence contains a rotation or if this
    held before the sequence. *)
Theorem selection_after_notifications env ws :
  focus_ready ws →
  Windows._windowsOrder ws ≠ [] →
  (∀ messages : list string,
     messages ≠ [] → Forall rotation messages →
     ∃ ws' tr,
       for_each (Windows.notify env) messages ws = Done (ws', tr)
       ∧ head_selected ws'
       ∧ focus_ready ws' ∧ Windows._windowsOrder ws' ≠ [])
  ∧ (healthy ws →
     ∀ requests : list (Env * string),
       ∃ ws' tr,
         for_each (λ request, Windows.notify request.1 request.2) requests ws
         = Done (ws', tr)
         ∧ (Exists (λ request, rotation request.2) requests
            ∨ head_selected ws → head_selected ws')
         ∧ healthy ws' ∧ focus_ready ws'
         ∧ Windows._windowsOrder ws' ≡ₚ Windows._windowsOrder ws)
  ∧ (∀ order, Windows._windows (Windows.windowsOrder order ws)
              = Windows._windows ws)
  ∧ (∀ name, Windows._windows (Windows.windowsOrder_push name ws)
             = Windows._windows ws).
Proof.
  intros Hready Hord. split; [|split; [|done]].
  - intros messages Hne Hall.
    destruct messages as [|m messages]; [done|].
    apply Forall_cons in Hall as [Hm Hall].
    destruct (rotation_step env m ws Hm Hready Hord)
      as (ws1 & tr1 & Hrun1 & Hr1 & Hne1 & Hs1).
    destruct (rotation_steps env messages ws1 Hall Hr1 Hne1 Hs1)
      as (ws' & tr2 & Hrun2 & ? & ? & ?).
    exists ws', (tr1 ++ tr2). split; [|done].
    simpl. rewrite Hrun1. unfold io_bind. by rewrite Hrun2.
  - intros Hh requests.
    destruct (notify_steps requests ws Hh Hready Hord)
      as (ws' & tr & Hrun & Hh' & Hready' & Hperm & Hsel).
    by exists ws', tr.
Qed.
End Selection.

Lemma selection_after_notifications_witness :
  (∃ ws' tr,
     for_each (Windows.notify term) ["rotate"; "rotate"; "rotate-back"]
       registry_abc = Done (ws', tr)
     ∧ head_selected ws')
  ∧ (∃ ws' tr,
       for_each (λ request, Windows.notify request.1 request.2)
         [(term, "resize"); ((30, 100), "rotate"); (term, "redraw");
          ((30, 100), "resize")]
         registry_abc = Done (ws', tr)
       ∧ head_selected ws').
Proof.
  assert (Hm : Forall rotation ["rotate"; "rotate"; "rotate-back"]).
  { repeat apply Forall_cons_2; [by left|by left|by right|apply Forall_nil_2]. }
  assert (Hne : ["rotate"; "rotate"; "rotate-back"] ≠ []) by discriminate.
  assert (Ho : Windows._windowsOrder registry_abc ≠ []) by discriminate.
  assert (Hh : healthy registry_abc).
  { intros name w Hw env. by apply (registry_abc_resizable env name). }
  destruct (selection_after_notifications term registry_abc
              registry_abc_ready Ho) as (Hrot & Hany & _).
  split.
  - destruct (Hrot _ Hne Hm) as (ws' & tr & Hrun & Hsel & _).
    exists ws', tr. split; [exact Hrun|exact Hsel].
  - destruct (Hany Hh [(term, "resize"); ((30, 100), "rotate");
                       (term, "redraw"); ((30, 100), "resize")])
      as (ws' & tr & Hrun & Hsel & _).
    exists ws', tr. split; [exact Hrun|]. apply Hsel. left.
    apply Exists_cons_tl, Exists_cons_hd. by left.
Defined.

